(** * Web search tool: result processing, orchestration and artifact

    A shallow embedding of [src/core/tools/webSearchTool.ts].

    - JavaScript strings are sequences of UTF-16 code units ([jsstring]);
      [String.prototype.length] is the number of code units.
    - The numbers [parseInt] yields are an integer or [NaN] ([num]); the
      infinities it yields on digit strings beyond the range of a double
      are left out.
    - Optional interface members ([content?], [domain?] ...) are [option]s:
      [None] stands for a member that is [undefined] or absent. *)

From Stdlib Require Import String Ascii DecimalString ZArith NArith Lia Bool Arith List.
Import ListNotations.

Local Open Scope Z_scope.
Set Warnings "-register-all".

(* ================================================================== *)
(** ** JavaScript strings and arrays *)

Definition jsstring : Type := list N.

(** A literal, written with an ASCII string. *)
Definition lit (s : string) : jsstring :=
  List.map N_of_ascii (list_ascii_of_string s).

Fixpoint str_eqb (a b : jsstring) : bool :=
  match a, b with
  | [], [] => true
  | x :: a', y :: b' => N.eqb x y && str_eqb a' b'
  | _, _ => false
  end.

Definition newline : jsstring := [10%N].

(** Truthiness of a string: the empty string is falsy. *)
Definition truthy (s : jsstring) : bool :=
  match s with [] => false | _ :: _ => true end.

(** The regular-expression class [\s]: WhiteSpace and LineTerminator code
    points of ECMAScript. *)
Definition is_space (c : N) : bool :=
  ((9 <=? c) && (c <=? 13) || (c =? 32) || (c =? 160) || (c =? 5760)
   || ((8192 <=? c) && (c <=? 8202)) || (c =? 8232) || (c =? 8233)
   || (c =? 8239) || (c =? 8287) || (c =? 12288) || (c =? 65279))%N.

(** [s.split(/\s+/)]: the pieces of [s] between maximal runs of white space.
    [cur] is the piece being read (reversed) and [in_run] tells that the
    previous code unit belonged to a separator.  Leading or trailing white
    space yields an empty first or last piece, and the empty string yields
    one empty piece. *)
Fixpoint split_go (s cur : jsstring) (in_run : bool) : list jsstring :=
  match s with
  | [] => [rev cur]
  | c :: rest =>
      if is_space c then
        if in_run then split_go rest cur true
        else rev cur :: split_go rest [] true
      else split_go rest (c :: cur) false
  end.

Definition split_ws (s : jsstring) : list jsstring := split_go s [] false.

(** [Array.prototype.slice(start, end)]: a negative index counts from the
    end of the array, and both indices are clamped to [0, length]. *)
Definition slice {A : Type} (l : list A) (start end_ : Z) : list A :=
  let len := Z.of_nat (length l) in
  let k := if start <? 0 then Z.max (len + start) 0 else Z.min start len in
  let final := if end_ <? 0 then Z.max (len + end_) 0 else Z.min end_ len in
  firstn (Z.to_nat (final - k)) (skipn (Z.to_nat k) l).

(** [Array.prototype.join(sep)] on an array of strings. *)
Fixpoint join (sep : jsstring) (l : list jsstring) : jsstring :=
  match l with
  | [] => []
  | x :: rest =>
      match rest with
      | [] => x
      | _ :: _ => x ++ sep ++ join sep rest
      end
  end.

(** A [Set<string>] keeps its members in insertion order; adding a member
    that is already present changes nothing. *)
Definition StrSet : Type := list jsstring.

Definition set_has (s : StrSet) (x : jsstring) : bool := existsb (str_eqb x) s.

Definition set_add (s : StrSet) (x : jsstring) : StrSet :=
  if set_has s x then s else s ++ [x].

(** The result of [parseInt]. *)
Inductive num : Type :=
| NaN
| Num (z : Z).

(* ================================================================== *)
(** ** JSON text

    The artifact is built from objects, arrays and strings only, so
    [JSON.stringify(value, null, 2)] and [JSON.parse] are modelled on that
    fragment of JSON; [JSON_parse] answers [None] where the built-in throws a
    [SyntaxError], and also on text outside the fragment (numbers, literals). *)

Inductive json : Type :=
| JStr (s : jsstring)
| JArr (items : list json)
| JObj (members : list (jsstring * json)).

Definition hex_digit (n : N) : N :=
  (if n <? 10 then 48 + n else 87 + n)%N.

(** [\uXXXX] with lower-case hexadecimal digits. *)
Definition unicode_escape (c : N) : jsstring :=
  [92; 117; hex_digit ((c / 4096) mod 16); hex_digit ((c / 256) mod 16);
   hex_digit ((c / 16) mod 16); hex_digit (c mod 16)]%N.

Definition is_high_surrogate (c : N) : bool := ((55296 <=? c) && (c <=? 56319))%N.
Definition is_low_surrogate (c : N) : bool := ((56320 <=? c) && (c <=? 57343))%N.

(** One code unit that is not a surrogate, as QuoteJSONString writes it. *)
Definition escape_unit (c : N) : jsstring :=
  (if c =? 8 then [92; 98]
   else if c =? 9 then [92; 116]
   else if c =? 10 then [92; 110]
   else if c =? 12 then [92; 102]
   else if c =? 13 then [92; 114]
   else if c =? 34 then [92; 34]
   else if c =? 92 then [92; 92]
   else if c <? 32 then unicode_escape c
   else [c])%N.

(** A surrogate pair is written as it is, a lone surrogate escaped. *)
Fixpoint quote_body (s : jsstring) : jsstring :=
  match s with
  | [] => []
  | c :: rest =>
      if is_high_surrogate c then
        match rest with
        | d :: rest' =>
            if is_low_surrogate d then c :: d :: quote_body rest'
            else unicode_escape c ++ quote_body rest
        | [] => unicode_escape c
        end
      else if is_low_surrogate c then unicode_escape c ++ quote_body rest
      else escape_unit c ++ quote_body rest
  end.

Definition quote (s : jsstring) : jsstring := 34%N :: quote_body s ++ [34%N].

(** The indentation at nesting level [depth], with a gap of two spaces. *)
Definition indent (depth : nat) : jsstring := repeat 32%N (2 * depth).

Definition item_separator (depth : nat) : jsstring :=
  44%N :: newline ++ indent depth.

(** SerializeJSONProperty with a gap: an empty array is [[]], an empty object
    [{}]; otherwise the parts are on lines of their own, one level deeper. *)
Fixpoint stringify (depth : nat) (v : json) : jsstring :=
  match v with
  | JStr s => quote s
  | JArr [] => [91; 93]%N
  | JArr items =>
      91%N :: newline ++ indent (S depth)
        ++ join (item_separator (S depth)) (List.map (stringify (S depth)) items)
        ++ newline ++ indent depth ++ [93%N]
  | JObj [] => [123; 125]%N
  | JObj members =>
      123%N :: newline ++ indent (S depth)
        ++ join (item_separator (S depth))
             (List.map (fun m => quote (fst m) ++ [58; 32]%N
                                   ++ stringify (S depth) (snd m)) members)
        ++ newline ++ indent depth ++ [125%N]
  end.

Definition is_json_ws (c : N) : bool :=
  ((c =? 32) || (c =? 9) || (c =? 10) || (c =? 13))%N.

Fixpoint skip_ws (s : jsstring) : jsstring :=
  match s with
  | [] => []
  | c :: rest => if is_json_ws c then skip_ws rest else s
  end.

Definition hex_value (c : N) : option N :=
  (if (48 <=? c) && (c <=? 57) then Some (c - 48)
   else if (97 <=? c) && (c <=? 102) then Some (c - 87)
   else if (65 <=? c) && (c <=? 70) then Some (c - 55)
   else None)%N.

Definition unescape (e : N) : option N :=
  (if e =? 98 then Some 8
   else if e =? 116 then Some 9
   else if e =? 110 then Some 10
   else if e =? 102 then Some 12
   else if e =? 114 then Some 13
   else if e =? 34 then Some 34
   else if e =? 92 then Some 92
   else if e =? 47 then Some 47
   else None)%N.

Definition push_unit {A : Type} (c : N) (r : option (jsstring * A))
  : option (jsstring * A) :=
  match r with
  | Some (s, rest) => Some (c :: s, rest)
  | None => None
  end.

(** The code units of a string literal after its opening quote, up to the
    closing quote; the second component is the text that follows. *)
Fixpoint parse_chars (s : jsstring) : option (jsstring * jsstring) :=
  match s with
  | [] => None
  | c :: rest =>
      if (c =? 34)%N then Some ([], rest)
      else if (c =? 92)%N then
        match rest with
        | [] => None
        | e :: rest1 =>
            if (e =? 117)%N then
              match rest1 with
              | h1 :: h2 :: h3 :: h4 :: rest2 =>
                  match hex_value h1, hex_value h2, hex_value h3, hex_value h4 with
                  | Some a, Some b, Some c', Some d =>
                      push_unit (a * 4096 + b * 256 + c' * 16 + d)%N
                        (parse_chars rest2)
                  | _, _, _, _ => None
                  end
              | _ => None
              end
            else
              match unescape e with
              | Some u => push_unit u (parse_chars rest1)
              | None => None
              end
        end
      else if (c <? 32)%N then None
      else push_unit c (parse_chars rest)
  end.

Definition with_first {A B C : Type} (f : A -> B) (r : option (A * C))
  : option (B * C) :=
  match r with
  | Some (a, rest) => Some (f a, rest)
  | None => None
  end.

Fixpoint parse_value (fuel : nat) (s : jsstring) : option (json * jsstring) :=
  match fuel with
  | O => None
  | S fuel' =>
      match skip_ws s with
      | [] => None
      | c :: rest =>
          if (c =? 34)%N then with_first JStr (parse_chars rest)
          else if (c =? 91)%N then
            match skip_ws rest with
            | [] => None
            | c2 :: rest2 =>
                if (c2 =? 93)%N then Some (JArr [], rest2)
                else with_first JArr (parse_items fuel' rest)
            end
          else if (c =? 123)%N then
            match skip_ws rest with
            | [] => None
            | c2 :: rest2 =>
                if (c2 =? 125)%N then Some (JObj [], rest2)
                else with_first JObj (parse_members fuel' rest)
            end
          else None
      end
  end
with parse_items (fuel : nat) (s : jsstring) : option (list json * jsstring) :=
  match fuel with
  | O => None
  | S fuel' =>
      match parse_value fuel' s with
      | None => None
      | Some (v, r) =>
          match skip_ws r with
          | [] => None
          | c :: r' =>
              if (c =? 44)%N then with_first (cons v) (parse_items fuel' r')
              else if (c =? 93)%N then Some ([v], r')
              else None
          end
      end
  end
with parse_members (fuel : nat) (s : jsstring)
  : option (list (jsstring * json) * jsstring) :=
  match fuel with
  | O => None
  | S fuel' =>
      match skip_ws s with
      | [] => None
      | q :: s1 =>
          if (q =? 34)%N then
            match parse_chars s1 with
            | None => None
            | Some (k, s2) =>
                match skip_ws s2 with
                | [] => None
                | colon :: s3 =>
                    if (colon =? 58)%N then
                      match parse_value fuel' s3 with
                      | None => None
                      | Some (v, r) =>
                          match skip_ws r with
                          | [] => None
                          | c :: r' =>
                              if (c =? 44)%N then
                                with_first (cons (k, v)) (parse_members fuel' r')
                              else if (c =? 125)%N then Some ([(k, v)], r')
                              else None
                          end
                      end
                    else None
                end
            end
          else None
      end
  end.

(** [JSON.parse(text)]: one value, with nothing but white space after it. *)
Definition JSON_parse (text : jsstring) : option json :=
  match parse_value (S (length text)) text with
  | Some (v, rest) =>
      match skip_ws rest with
      | [] => Some v
      | _ :: _ => None
      end
  | None => None
  end.

(* ================================================================== *)
(** ** Data model *)

Record WebSearchResult : Type := mkResult {
  title : jsstring;
  url : jsstring;
  snippet : jsstring;
  content : option jsstring;
  codeSnippets : option (list jsstring);
  headings : option (list jsstring)
}.

Record ProcessedResults : Type := mkProcessed {
  pr_query : jsstring;
  pr_domain : option jsstring;
  pr_results : list WebSearchResult;
  pr_keyPhrases : list jsstring;
  pr_searchSummary : jsstring;
  pr_timestamp : jsstring
}.

(* ================================================================== *)
(** ** The artifact as JSON *)

(** A property whose value is [undefined] is left out by [JSON.stringify]. *)
Definition optional_member {A : Type} (key : string) (f : A -> json)
  (x : option A) : list (jsstring * json) :=
  match x with
  | Some a => [(lit key, f a)]
  | None => []
  end.

Definition json_strings (l : list jsstring) : json := JArr (List.map JStr l).

Definition json_of_result (r : WebSearchResult) : json :=
  JObj ([(lit "title", JStr (title r));
         (lit "url", JStr (url r));
         (lit "snippet", JStr (snippet r))]
          ++ optional_member "content" JStr (content r)
          ++ optional_member "codeSnippets" json_strings (codeSnippets r)
          ++ optional_member "headings" json_strings (headings r)).

Definition json_of_processed (p : ProcessedResults) : json :=
  JObj ([(lit "query", JStr (pr_query p))]
          ++ optional_member "domain" JStr (pr_domain p)
          ++ [(lit "results", JArr (List.map json_of_result (pr_results p)));
              (lit "keyPhrases", json_strings (pr_keyPhrases p));
              (lit "searchSummary", JStr (pr_searchSummary p));
              (lit "timestamp", JStr (pr_timestamp p))]).

(** [JSON.stringify(processedResults, null, 2)] *)
Definition JSON_stringify (p : ProcessedResults) : jsstring :=
  stringify 0 (json_of_processed p).

(** Reading a parsed value as a [ProcessedResults]: property access by key,
    an absent property reading as [undefined]. *)
Fixpoint property (key : jsstring) (members : list (jsstring * json))
  : option json :=
  match members with
  | [] => None
  | (k, v) :: rest => if str_eqb key k then Some v else property key rest
  end.

Definition as_string (v : json) : option jsstring :=
  match v with JStr s => Some s | _ => None end.

Fixpoint all_some {A : Type} (l : list (option A)) : option (list A) :=
  match l with
  | [] => Some []
  | Some a :: rest =>
      match all_some rest with Some r => Some (a :: r) | None => None end
  | None :: _ => None
  end.

Definition as_strings (v : json) : option (list jsstring) :=
  match v with
  | JArr items => all_some (List.map as_string items)
  | _ => None
  end.

(** A required property. *)
Definition required {A : Type} (read : json -> option A) (key : string)
  (members : list (jsstring * json)) : option A :=
  match property (lit key) members with
  | Some v => read v
  | None => None
  end.

(** An optional property: absent reads as [Some None]. *)
Definition optional {A : Type} (read : json -> option A) (key : string)
  (members : list (jsstring * json)) : option (option A) :=
  match property (lit key) members with
  | Some v => match read v with Some a => Some (Some a) | None => None end
  | None => Some None
  end.

Definition result_of_json (v : json) : option WebSearchResult :=
  match v with
  | JObj m =>
      match required as_string "title" m, required as_string "url" m,
            required as_string "snippet" m, optional as_string "content" m,
            optional as_strings "codeSnippets" m,
            optional as_strings "headings" m with
      | Some t, Some u, Some s, Some c, Some cs, Some hs =>
          Some (mkResult t u s c cs hs)
      | _, _, _, _, _, _ => None
      end
  | _ => None
  end.

Definition as_results (v : json) : option (list WebSearchResult) :=
  match v with
  | JArr items => all_some (List.map result_of_json items)
  | _ => None
  end.

Definition processed_of_json (v : json) : option ProcessedResults :=
  match v with
  | JObj m =>
      match required as_string "query" m, optional as_string "domain" m,
            required as_results "results" m,
            required as_strings "keyPhrases" m,
            required as_string "searchSummary" m,
            required as_string "timestamp" m with
      | Some q, Some d, Some rs, Some ks, Some sm, Some ts =>
          Some (mkProcessed q d rs ks sm ts)
      | _, _, _, _, _, _ => None
      end
  | _ => None
  end.

(** Parsing an artifact back into a [ProcessedResults]. *)
Definition parse_artifact (text : jsstring) : option ProcessedResults :=
  match JSON_parse text with
  | Some v => processed_of_json v
  | None => None
  end.

(* ================================================================== *)
(** ** Result processor *)

Definition strlen (s : jsstring) : Z := Z.of_nat (length s).

(** [phrase.length > 30 && phrase.length < 150] *)
Definition keep_phrase (phrase : jsstring) : bool :=
  (30 <? strlen phrase) && (strlen phrase <? 150).

(** The phrase the loop body builds at index [i]:
    [words.slice(i, i + windowSize).join(" ")]. *)
Definition phrase_at (words : list jsstring) (windowSize : Z) (i : nat)
  : jsstring :=
  join (lit " ") (slice words (Z.of_nat i) (Z.of_nat i + windowSize)).

(** The inner loop over one result's words:
    [for (let i = 0; i < words.length - windowSize; i++)].
    A comparison with [NaN] is false, so the body never runs then. *)
Definition scan_words (words : list jsstring) (windowSize : num)
  (phrases : StrSet) : StrSet :=
  match windowSize with
  | NaN => phrases
  | Num w =>
      fold_left
        (fun acc i =>
           let phrase := phrase_at words w i in
           if keep_phrase phrase then set_add acc phrase else acc)
        (seq 0 (Z.to_nat (Z.of_nat (length words) - w)))
        phrases
  end.

(** One turn of the outer loop; [if (!result.content) continue]. *)
Definition scan_result (windowSize : num) (phrases : StrSet)
  (result : WebSearchResult) : StrSet :=
  match content result with
  | None => phrases
  | Some c =>
      if truthy c then scan_words (split_ws c) windowSize phrases
      else phrases
  end.

Definition extractKeyPhrases (results : list WebSearchResult)
  (windowSize : num) : list jsstring :=
  slice (fold_left (scan_result windowSize) results []) 0 5.

Definition has_headings (r : WebSearchResult) : bool :=
  match headings r with
  | Some (_ :: _) => true
  | _ => false
  end.

Definition headings_of (r : WebSearchResult) : list jsstring :=
  match headings r with Some hs => hs | None => [] end.

Definition fallback_summary : jsstring := lit "No structured summary available".

(** The joined text before the [||]. *)
Definition summary_text (results : list WebSearchResult) : jsstring :=
  join newline
    (List.map (fun r => join (lit " > ") (headings_of r))
       (filter has_headings results)).

Definition generateSearchSummary (results : list WebSearchResult) : jsstring :=
  let summary := summary_text results in
  if truthy summary then summary else fallback_summary.

(* ================================================================== *)
(** ** Report formatter *)

(** A length written in decimal, as a template literal does. *)
Definition decimal (n : nat) : jsstring :=
  lit (NilZero.string_of_uint (Nat.to_uint n)).

Definition truthy_opt (x : option jsstring) : bool :=
  match x with Some s => truthy s | None => false end.

Definition dquote : jsstring := [34%N].

(** One bullet of the [Results:] part. *)
Definition format_result (r : WebSearchResult) : jsstring :=
  lit "- " ++ title r ++ newline
    ++ lit "  " ++ url r ++ newline
    ++ lit "  " ++ snippet r ++ newline
    ++ lit "  "
    ++ match codeSnippets r with
       | Some (c :: cs) =>
           newline ++ lit "Code Snippets: " ++ decimal (length (c :: cs))
             ++ lit " found"
       | _ => []
       end
    ++ newline
    ++ lit "  "
    ++ match headings r with
       | Some (h :: hs) => newline ++ lit "Headings: " ++ join (lit " > ") (h :: hs)
       | _ => []
       end.

Definition formatSearchResults (results : ProcessedResults)
  (storagePath : jsstring) : jsstring :=
  lit "Web Search Results for: " ++ dquote ++ pr_query results ++ dquote ++ newline
    ++ match pr_domain results with
       | Some d => if truthy d then lit "Domain: " ++ d ++ newline else []
       | None => []
       end
    ++ newline
    ++ lit "Results stored in: " ++ storagePath ++ newline
    ++ newline
    ++ lit "Search Summary:" ++ newline
    ++ pr_searchSummary results ++ newline
    ++ newline
    ++ lit "Key Phrases:" ++ newline
    ++ join newline (pr_keyPhrases results) ++ newline
    ++ newline
    ++ lit "Results:" ++ newline
    ++ join (newline ++ newline) (List.map format_result (pr_results results)).

(* ================================================================== *)
(** ** The world around one invocation *)

(** The tool-use block's parameters, each possibly absent. *)
Record Params : Type := mkParams {
  query_param : option jsstring;
  domain_param : option jsstring;
  max_results_param : option jsstring;
  sliding_window_size_param : option jsstring;
  chunk_dir_param : option jsstring
}.

Record WebSearchToolMessage : Type := mkMessage {
  description : jsstring;
  path : jsstring;
  query : jsstring;
  domain : option jsstring;
  maxResults : num
}.

(** An element handle of the listing, with the properties the tool reads. *)
Record Element : Type := mkElement {
  textContent : option jsstring;
  href : jsstring
}.

(** What the detail page of one candidate does: for every awaited call on
    the content page, whether it resolves, and with what. [None] is a
    rejected promise. The texts are those of the matching elements, before
    [filter(Boolean)]. *)
Record Detail : Type := mkDetail {
  newPage_ok : bool;
  goto_ok : bool;
  body_text : option jsstring;
  code_texts : option (list jsstring);
  heading_texts : option (list jsstring);
  close_ok : bool
}.

(** One [li.b_algo] entry of the listing. [entry_ok] is false when the
    queries on the entry's handle reject. *)
Record Candidate : Type := mkCandidate {
  entry_ok : bool;
  titleElement : option Element;
  snippetElement : option Element;
  detail : Detail
}.

(** Everything the invocation gets from outside: the pure helpers of the
    host and the platform, and the outcome of every awaited call. *)
Record Env : Type := mkEnv {
  removeClosingTag : string -> option jsstring -> jsstring;
  parseInt : jsstring -> num;
  describe_with_domain : jsstring -> jsstring -> jsstring;
  describe_without_domain : jsstring -> jsstring;
  path_resolve : jsstring -> jsstring -> jsstring;
  path_join : jsstring -> jsstring -> jsstring;
  encodeURIComponent : jsstring -> jsstring;
  cwd : jsstring;
  missing_param_reply : option jsstring;
  mkdir_ok : bool;
  approval : option bool;
  chromium_ok : bool;
  launch_ok : bool;
  search_page_ok : bool;
  interception_ok : bool;
  search_goto_ok : bool;
  listing : option (list Candidate);
  now : jsstring;
  writeFile_ok : bool;
  handleError_ok : bool;
  browser_close_ok : bool
}.

(** The calls that reach outside the function. *)
Inductive Call : Type :=
| Mistake
| SayMissingParam
| Mkdir (dir : jsstring)
| AskApproval (message : WebSearchToolMessage)
| ResolveChromium
| Launch
| NewPage (page : nat)
| SetRequestInterception (page : nat)
| Goto (page : nat) (target : jsstring)
| QueryListing (page : nat)
| QueryEntry (index : nat)
| EvaluateContent (page : nat)
| EvaluateCode (page : nat)
| EvaluateHeadings (page : nat)
| ClosePage (page : nat)
| ConsoleError (target : jsstring)
| WriteFile (file data : jsstring)
| PushToolResult (text : jsstring)
| HandleError
| CloseBrowser.

(** A call and whether it came back without throwing. *)
Definition Event : Type := (Call * bool)%type.

(** The mutable state of one invocation: the calls made so far, the
    [results] array, whether [browser] is set, and the number of pages
    opened (the next page's identity). *)
Record State : Type := mkState {
  trace : list Event;
  results : list WebSearchResult;
  browser : bool;
  pages : nat
}.

Definition initial : State := mkState [] [] false 0.

(** Computations that change the state and may throw ([None]). *)
Definition M (A : Type) : Type := State -> option A * State.

Definition ret {A : Type} (a : A) : M A := fun s => (Some a, s).

Definition throw {A : Type} : M A := fun s => (None, s).

Definition bind {A B : Type} (m : M A) (k : A -> M B) : M B :=
  fun s =>
    match m s with
    | (Some a, s') => k a s'
    | (None, s') => (None, s')
    end.

Notation "x <- m ;; k" := (bind m (fun x => k))
  (at level 61, m at next level, right associativity).
Notation "m ;; k" := (bind m (fun _ => k))
  (at level 61, right associativity).

(** [try { m } catch { handler }] *)
Definition try_catch {A : Type} (m : M A) (handler : M A) : M A :=
  fun s =>
    match m s with
    | (Some a, s') => (Some a, s')
    | (None, s') => handler s'
    end.

(** [try { m } finally { cleanup }]: the cleanup always runs, and a throw
    from it replaces the outcome of [m]. *)
Definition try_finally {A : Type} (m : M A) (cleanup : M unit) : M A :=
  fun s =>
    match m s with
    | (r, s') =>
        match cleanup s' with
        | (Some _, s'') => (r, s'')
        | (None, s'') => (None, s'')
        end
    end.

Definition record (e : Event) (s : State) : State :=
  mkState (trace s ++ [e]) (results s) (browser s) (pages s).

(** A call that cannot throw. *)
Definition emit (c : Call) : M unit := fun s => (Some tt, record (c, true) s).

(** An awaited call whose promise resolves (with [a]) or rejects. *)
Definition await {A : Type} (c : Call) (outcome : option A) : M A :=
  fun s =>
    match outcome with
    | Some a => (Some a, record (c, true) s)
    | None => (None, record (c, false) s)
    end.

Definition attempt (c : Call) (ok : bool) : M unit :=
  await c (if ok then Some tt else None).

(** [browser.newPage()]: a page with a fresh identity. *)
Definition newPage (ok : bool) : M nat :=
  fun s =>
    if ok then
      (Some (pages s),
       mkState (trace s ++ [(NewPage (pages s), true)]) (results s)
         (browser s) (S (pages s)))
    else (None, record (NewPage (pages s), false) s).

(** [results.push(r)] *)
Definition push_result (r : WebSearchResult) : M unit :=
  fun s => (Some tt, mkState (trace s) (results s ++ [r]) (browser s) (pages s)).

Definition set_browser : M unit :=
  fun s => (Some tt, mkState (trace s) (results s) true (pages s)).

Definition get_results : M (list WebSearchResult) := fun s => (Some (results s), s).

Definition get_browser : M bool := fun s => (Some (browser s), s).

(** [for (let i = start; i < start + count; i++) body] *)
Fixpoint for_range (start count : nat) (body : nat -> M unit) : M unit :=
  match count with
  | O => ret tt
  | S count' => body start ;; for_range (S start) count' body
  end.

(* ================================================================== *)
(** ** Search orchestrator *)

(** [el.textContent || ""] *)
Definition or_empty (t : option jsstring) : jsstring :=
  match t with
  | Some s => if truthy s then s else []
  | None => []
  end.

(** Number of turns of
    [for (let i = 0; i < Math.min(searchResults.length, maxResults); i++)];
    [Math.min] of anything and [NaN] is [NaN], and [i < NaN] is false. *)
Definition loop_bound (len : nat) (maxResults : num) : nat :=
  match maxResults with
  | NaN => 0%nat
  | Num m => Z.to_nat (Z.min (Z.of_nat len) m)
  end.

(** The inner [try] block: visit the page and extract its content. *)
Definition extract_content (d : Detail) (title url snippet : jsstring) : M unit :=
  contentPage <- newPage (newPage_ok d) ;;
  attempt (Goto contentPage url) (goto_ok d) ;;
  content <- await (EvaluateContent contentPage) (body_text d) ;;
  codeSnippets <- await (EvaluateCode contentPage)
                    (option_map (filter truthy) (code_texts d)) ;;
  headings <- await (EvaluateHeadings contentPage)
                (option_map (filter truthy) (heading_texts d)) ;;
  push_result (mkResult title url snippet (Some content) (Some codeSnippets)
                 (Some headings)) ;;
  attempt (ClosePage contentPage) (close_ok d).

(** The body of the loop for the listing entry [result] at index [i]. *)
Definition visit_entry (result : Candidate) (i : nat) : M unit :=
  attempt (QueryEntry i) (entry_ok result) ;;
  match titleElement result, snippetElement result with
  | Some titleEl, Some snippetEl =>
      let title := or_empty (textContent titleEl) in
      let url := href titleEl in
      let snippet := or_empty (textContent snippetEl) in
      try_catch
        (extract_content (detail result) title url snippet)
        (emit (ConsoleError url) ;;
         push_result (mkResult title url snippet None None None))
  | _, _ => ret tt
  end.

(** One turn of the loop: [const result = searchResults[i]] and the body. *)
Definition visit (searchResults : list Candidate) (i : nat) : M unit :=
  match nth_error searchResults i with
  | None => throw
  | Some result => visit_entry result i
  end.

Definition search_url (env : Env) (query : jsstring) (domain : option jsstring)
  : jsstring :=
  match domain with
  | Some d =>
      if truthy d then
        lit "https://www.bing.com/search?q=site:" ++ d ++ lit "+"
          ++ encodeURIComponent env query
      else lit "https://www.bing.com/search?q=" ++ encodeURIComponent env query
  | None => lit "https://www.bing.com/search?q=" ++ encodeURIComponent env query
  end.

(** The [ProcessedResults] assembled from the [results] array. *)
Definition assemble (env : Env) (query : jsstring) (domain : option jsstring)
  (slidingWindowSize : num) (results : list WebSearchResult) : ProcessedResults :=
  mkProcessed query domain results
    (extractKeyPhrases results slidingWindowSize)
    (generateSearchSummary results)
    (now env).

(** The parameters as the function reads them. *)
Definition query_of (env : Env) (params : Params) : jsstring :=
  removeClosingTag env "query" (query_param params).

Definition domain_of (env : Env) (params : Params) : option jsstring :=
  if truthy_opt (domain_param params)
  then Some (removeClosingTag env "domain" (domain_param params))
  else None.

Definition maxResults_of (env : Env) (params : Params) : num :=
  if truthy_opt (max_results_param params)
  then parseInt env (removeClosingTag env "max_results" (max_results_param params))
  else Num 5.

Definition slidingWindowSize_of (env : Env) (params : Params) : num :=
  if truthy_opt (sliding_window_size_param params)
  then parseInt env (removeClosingTag env "sliding_window_size"
                       (sliding_window_size_param params))
  else Num 100.

Definition chunkDir_of (env : Env) (params : Params) : jsstring :=
  if truthy_opt (chunk_dir_param params)
  then removeClosingTag env "chunk_dir" (chunk_dir_param params)
  else lit "./web-search-results".

Definition resultsDir_of (env : Env) (params : Params) : jsstring :=
  path_resolve env (cwd env) (chunkDir_of env params).

Definition message_of (env : Env) (params : Params) : WebSearchToolMessage :=
  let query := query_of env params in
  let domain := domain_of env params in
  mkMessage
    (match domain with
     | Some d =>
         if truthy d then describe_with_domain env query d
         else describe_without_domain env query
     | None => describe_without_domain env query
     end)
    (resultsDir_of env params) query domain (maxResults_of env params).

(** Everything after the approval: browser, listing, loop, artifact, report. *)
Definition search (env : Env) (params : Params) : M unit :=
  let query := query_of env params in
  let domain := domain_of env params in
  attempt ResolveChromium (chromium_ok env) ;;
  attempt Launch (launch_ok env) ;;
  set_browser ;;
  page <- newPage (search_page_ok env) ;;
  attempt (SetRequestInterception page) (interception_ok env) ;;
  attempt (Goto page (search_url env query domain)) (search_goto_ok env) ;;
  searchResults <- await (QueryListing page) (listing env) ;;
  for_range 0 (loop_bound (length searchResults) (maxResults_of env params))
    (visit searchResults) ;;
  results <- get_results ;;
  let processedResults :=
    assemble env query domain (slidingWindowSize_of env params) results in
  let resultsPath :=
    path_join env (resultsDir_of env params)
      (lit "search-" ++ now env ++ lit ".json") in
  attempt (WriteFile resultsPath (JSON_stringify processedResults))
    (writeFile_ok env) ;;
  emit (PushToolResult (formatSearchResults processedResults resultsPath)).

(** The body of the outer [try]. *)
Definition webSearchTool_try (env : Env) (params : Params) : M unit :=
  if negb (truthy (query_of env params)) then
    emit Mistake ;;
    text <- await SayMissingParam (missing_param_reply env) ;;
    emit (PushToolResult text)
  else
    attempt (Mkdir (resultsDir_of env params)) (mkdir_ok env) ;;
    didApprove <- await (AskApproval (message_of env params)) (approval env) ;;
    if negb didApprove then ret tt
    else search env params.

Definition webSearchTool (env : Env) (params : Params) : M unit :=
  try_finally
    (try_catch (webSearchTool_try env params)
       (attempt HandleError (handleError_ok env)))
    (b <- get_browser ;;
     if b then attempt CloseBrowser (browser_close_ok env) else ret tt).

(** The invocation from its initial state: whether it returned normally,
    and the state it leaves. *)
Definition run (env : Env) (params : Params) : option unit * State :=
  webSearchTool env params initial.
(* ================================================================== *)
(** ** Specification-side notions for the result processor *)

(** The first occurrences of the members of [l], in order. *)
Fixpoint dedup (l : list jsstring) : list jsstring :=
  match l with
  | [] => []
  | x :: rest => x :: filter (fun y => negb (str_eqb x y)) (dedup rest)
  end.

(** The phrases the loops of [extractKeyPhrases] build, in the order they
    build them, before the length test. *)
Definition examined_in (windowSize : num) (r : WebSearchResult) : list jsstring :=
  match content r, windowSize with
  | Some c, Num w =>
      if truthy c then
        List.map (phrase_at (split_ws c) w)
          (seq 0 (Z.to_nat (Z.of_nat (length (split_ws c)) - w)))
      else []
  | _, _ => []
  end.

Definition examined (results : list WebSearchResult) (windowSize : num)
  : list jsstring :=
  flat_map (examined_in windowSize) results.

(** The contiguous window of [w] words that starts at position [i]. *)
Definition window (words : list jsstring) (w i : nat) : list jsstring :=
  firstn w (skipn i words).

(** Following the specification's words: every window of [w] words, at every
    start position of the token sequence, joined with single spaces; none
    when [w] is at least the number of tokens. *)
Definition spec_windows (w : nat) (r : WebSearchResult) : list jsstring :=
  match content r with
  | Some c =>
      if truthy c && (w <? length (split_ws c))%nat then
        List.map (fun i => join (lit " ") (window (split_ws c) w i))
          (seq 0 (length (split_ws c) - w + 1))
      else []
  | None => []
  end.

(** The windows the code reaches: start positions [0 <= i < tokens - w]. *)
Definition reached_windows (w : nat) (r : WebSearchResult) : list jsstring :=
  match content r with
  | Some c =>
      if truthy c then
        List.map (fun i => join (lit " ") (window (split_ws c) w i))
          (seq 0 (length (split_ws c) - w))
      else []
  | None => []
  end.

Definition token_count (r : WebSearchResult) : nat :=
  match content r with
  | Some c => length (split_ws c)
  | None => 0%nat
  end.

(** Scenario data: a page of six words and one of eight. *)
Definition six_words : WebSearchResult :=
  mkResult (lit "Six") (lit "https://six.example/") (lit "six words")
    (Some (lit "aaaaaa bbbbbb cccccc dddddd eeeeee ffffff")) (Some []) (Some []).

Definition eight_words : WebSearchResult :=
  mkResult (lit "Eight") (lit "https://eight.example/") (lit "eight words")
    (Some (lit "gggggg hhhhhh iiiiii jjjjjj kkkkkk llllll mmmmmm nnnnnn"))
    (Some []) (Some [lit "A"; lit "B"]).

Definition one_heading (h : jsstring) : WebSearchResult :=
  mkResult (lit "T") (lit "https://t.example/") (lit "s") None None (Some [h]).

(* ================================================================== *)
(** ** Specification-side notions for the orchestrator *)

(** The loop over a list of consecutive listing entries, the first of
    which has index [i]. *)
Fixpoint loop_from (i : nat) (entries : list Candidate) : M unit :=
  match entries with
  | [] => ret tt
  | c :: rest => visit_entry c i ;; loop_from (S i) rest
  end.

Definition both_present (c : Candidate) : bool :=
  match titleElement c, snippetElement c with
  | Some _, Some _ => true
  | _, _ => false
  end.

Definition listed_title (c : Candidate) : jsstring :=
  match titleElement c with Some el => or_empty (textContent el) | None => [] end.

Definition listed_url (c : Candidate) : jsstring :=
  match titleElement c with Some el => href el | None => [] end.

Definition listed_snippet (c : Candidate) : jsstring :=
  match snippetElement c with Some el => or_empty (textContent el) | None => [] end.

(** The entry with only what the listing gave. *)
Definition partial_result (c : Candidate) : WebSearchResult :=
  mkResult (listed_title c) (listed_url c) (listed_snippet c) None None None.

(** Navigation and the three extractions all went through. *)
Definition extraction_ok (d : Detail) : bool :=
  newPage_ok d && goto_ok d
  && match body_text d, code_texts d, heading_texts d with
     | Some _, Some _, Some _ => true
     | _, _, _ => false
     end.

Definition full_result (c : Candidate) : WebSearchResult :=
  mkResult (listed_title c) (listed_url c) (listed_snippet c)
    (Some (match body_text (detail c) with Some b => b | None => [] end))
    (Some (filter truthy
             (match code_texts (detail c) with Some l => l | None => [] end)))
    (Some (filter truthy
             (match heading_texts (detail c) with Some l => l | None => [] end))).

(** What one listing entry adds to [results]. *)
Definition pushed (c : Candidate) : list WebSearchResult :=
  if both_present c then
    if extraction_ok (detail c) then
      if close_ok (detail c) then [full_result c]
      else [full_result c; partial_result c]
    else [partial_result c]
  else [].

(** The calls the loop over the listing makes. *)
Definition in_loop (e : Event) : bool :=
  match fst e with
  | QueryEntry _ | NewPage _ | Goto _ _ | EvaluateContent _ | EvaluateCode _
  | EvaluateHeadings _ | ClosePage _ | ConsoleError _ => true
  | _ => false
  end.

(** A write that went through. *)
Definition is_write (e : Event) : bool :=
  match e with
  | (WriteFile _ _, true) => true
  | _ => false
  end.

(** The texts written to files. *)
Definition written (s : State) : list jsstring :=
  flat_map (fun e => match e with
                     | (WriteFile _ data, true) => [data]
                     | _ => []
                     end) (trace s).

(** The run got as far as writing the artifact. *)
Definition completed (s : State) : Prop :=
  exists file data, In (WriteFile file data, true) (trace s).

(** Every awaited call outside the detail pages resolves, and the approval
    is given. *)
Definition healthy (env : Env) (params : Params) (searchResults : list Candidate)
  : Prop :=
  truthy (query_of env params) = true
  /\ mkdir_ok env = true
  /\ approval env = Some true
  /\ chromium_ok env = true
  /\ launch_ok env = true
  /\ search_page_ok env = true
  /\ interception_ok env = true
  /\ search_goto_ok env = true
  /\ listing env = Some searchResults
  /\ forallb entry_ok
       (firstn (loop_bound (length searchResults) (maxResults_of env params))
          searchResults) = true
  /\ writeFile_ok env = true.

(** The entries the loop visits. *)
Definition visited (env : Env) (params : Params) (searchResults : list Candidate)
  : list Candidate :=
  firstn (loop_bound (length searchResults) (maxResults_of env params))
    searchResults.

Definition processed_of (env : Env) (params : Params)
  (results : list WebSearchResult) : ProcessedResults :=
  assemble env (query_of env params) (domain_of env params)
    (slidingWindowSize_of env params) results.

Definition resultsPath_of (env : Env) (params : Params) : jsstring :=
  path_join env (resultsDir_of env params)
    (lit "search-" ++ now env ++ lit ".json").

(** The calls up to the listing, when they all resolve. *)
Definition opening (env : Env) (params : Params) : list Event :=
  [(Mkdir (resultsDir_of env params), true);
   (AskApproval (message_of env params), true);
   (ResolveChromium, true);
   (Launch, true);
   (NewPage 0, true);
   (SetRequestInterception 0, true);
   (Goto 0 (search_url env (query_of env params) (domain_of env params)), true);
   (QueryListing 0, true)].

(** The calls after the loop. *)
Definition closing (env : Env) (params : Params)
  (results : list WebSearchResult) : list Event :=
  [(WriteFile (resultsPath_of env params)
      (JSON_stringify (processed_of env params results)), true);
   (PushToolResult
      (formatSearchResults (processed_of env params results)
         (resultsPath_of env params)), true);
   (CloseBrowser, browser_close_ok env)].

(** The calls made on the page [p], in order. *)
Definition on_page (p : nat) (e : Event) : bool :=
  match fst e with
  | NewPage q | SetRequestInterception q | Goto q _ | QueryListing q
  | EvaluateContent q | EvaluateCode q | EvaluateHeadings q | ClosePage q =>
      Nat.eqb p q
  | _ => false
  end.

(** A file-system write: creating a directory or writing a file. *)
Definition is_fs_write (e : Event) : bool :=
  match fst e with
  | Mkdir _ | WriteFile _ _ => true
  | _ => false
  end.

(** Scenario data: a host with plain helpers, in which every call
    outside the detail pages resolves. [example_parseInt] reads a prefix of
    decimal digits, which is what [parseInt] does on the scenarios'
    parameters. *)
Fixpoint digits_value (s : jsstring) (acc : option Z) : option Z :=
  match s with
  | [] => acc
  | c :: rest =>
      if ((48 <=? c) && (c <=? 57))%N then
        digits_value rest
          (Some (10 * match acc with Some a => a | None => 0 end
                 + Z.of_N (c - 48)))
      else acc
  end.

Definition example_parseInt (s : jsstring) : num :=
  match digits_value s None with
  | Some z => Num z
  | None => NaN
  end.

Definition example_env (approval : option bool) (listing : list Candidate) : Env :=
  mkEnv
    (fun _ text => match text with Some t => t | None => [] end)
    example_parseInt
    (fun q d => lit "Search for " ++ q ++ lit " on " ++ d)
    (fun q => lit "Search for " ++ q)
    (fun base dir => base ++ lit "/" ++ dir)
    (fun dir file => dir ++ lit "/" ++ file)
    (fun s => s)
    (lit "/work")
    (Some (lit "Missing value for required parameter"))
    true approval true true true true true (Some listing)
    (lit "2025-01-01T00:00:00.000Z") true true true.

Definition example_params (max_results : option jsstring) : Params :=
  mkParams (Some (lit "foo")) None max_results None None.

Definition page_ok (text : string) (heads : list jsstring) : Detail :=
  mkDetail true true (Some (lit text)) (Some []) (Some heads) true.

Definition page_timeout : Detail :=
  mkDetail true false None None None true.

Definition entry (name : string) (d : Detail) : Candidate :=
  mkCandidate true
    (Some (mkElement (Some (lit name)) (lit "https://example.org/" ++ lit name)))
    (Some (mkElement (Some (lit "about " ++ lit name)) []))
    d.

Definition entry_without_title (d : Detail) : Candidate :=
  mkCandidate true None (Some (mkElement (Some (lit "no title")) [])) d.

(** An anchor and a paragraph that hold no text. *)
Definition entry_blank (d : Detail) : Candidate :=
  mkCandidate true
    (Some (mkElement (Some []) (lit "https://example.org/blank")))
    (Some (mkElement (Some []) []))
    d.

(** An anchor without [href]: navigating to the empty url fails. *)
Definition entry_without_href : Candidate :=
  mkCandidate true
    (Some (mkElement (Some (lit "C")) []))
    (Some (mkElement (Some (lit "about C")) []))
    page_timeout.

(** Three entries, the first without a title; at most two to process. *)
Definition gap_listing : list Candidate :=
  [entry_without_title (page_ok "text" []);
   entry "A" (page_ok "text A" [lit "A"; lit "B"]);
   entry "B" (page_ok "text B" [lit "C"])].

Definition gap_env : Env := example_env (Some true) gap_listing.

Definition two_params : Params := example_params (Some (lit "2")).

(** One entry whose detail page times out, then one that loads. *)
Definition timeout_listing : list Candidate :=
  [entry "A" page_timeout; entry "B" (page_ok "text B" [lit "C"])].

Definition timeout_env : Env := example_env (Some true) timeout_listing.

Definition blank_env : Env :=
  example_env (Some true) [entry_blank (page_ok "text" []); entry_without_href].

(** One entry whose content page is read, but whose [close] rejects. *)
Definition close_fails_env : Env :=
  example_env (Some true)
    [entry "A" (mkDetail true true (Some (lit "text A")) (Some []) (Some []) false)].

(** The listing of three entries that all load. *)
Definition three_listing : list Candidate :=
  [entry "A" (page_ok "text A" [lit "A"; lit "B"]);
   entry "B" (page_ok "text B" [lit "C"]);
   entry "C" (page_ok "text C" [lit "D"])].

(* ================================================================== *)
(** ** Specification-side notion for the JSON text *)

(** What the parsers do on printed text: a value of any fuel not below the
    length of its text, after any white space. *)
Definition reads_back (j : json) : Prop :=
  forall depth ws rest fuel,
    forallb is_json_ws ws = true ->
    (length (stringify depth j) <= fuel)%nat ->
    parse_value fuel (ws ++ stringify depth j ++ rest) = Some (j, rest).


(* ================================================================== *)
(** ** Further notions: tokens, outcomes and the report *)

(** The number of code units of the tokens of [l] taken together. *)
Definition total_length (l : list jsstring) : nat :=
  list_sum (List.map (@length N) l).

Definition no_space (token : jsstring) : bool :=
  forallb (fun u => negb (is_space u)) token.

(** A result without usable content: [!result.content]. *)
Definition without_content (r : WebSearchResult) : bool :=
  negb (truthy_opt (content r)).

(** [a] occurs in [b] as a contiguous part. *)
Definition occurs_in (a b : jsstring) : Prop :=
  exists before after, b = before ++ a ++ after.

(** A page of seventy-six tokens of one letter. *)
Definition many_words : WebSearchResult :=
  mkResult (lit "Many") (lit "https://many.example/") (lit "many words")
    (Some (join (lit " ") (repeat (lit "a") 76))) (Some []) (Some []).

Definition count (p : Event -> bool) (l : list Event) : nat :=
  length (filter p l).





(** A page that was opened, and a page that was closed. *)
Definition is_opened (e : Event) : bool :=
  match e with (NewPage _, true) => true | _ => false end.

Definition is_closed (e : Event) : bool :=
  match e with (ClosePage _, true) => true | _ => false end.

(** Anything that reaches for the browser or, through it, the network. *)
Definition browser_call (e : Event) : bool :=
  match fst e with
  | ResolveChromium | Launch | NewPage _ | SetRequestInterception _ | Goto _ _
  | QueryListing _ | QueryEntry _ | EvaluateContent _ | EvaluateCode _
  | EvaluateHeadings _ | ClosePage _ | CloseBrowser => true
  | _ => false
  end.


(** A result as the loop pushes it: with nothing from the detail page, or
    with the content and the two lists, which hold no empty string. *)
Definition detail_shape (r : WebSearchResult) : bool :=
  match content r, codeSnippets r, headings r with
  | None, None, None => true
  | Some _, Some cs, Some hs => forallb truthy cs && forallb truthy hs
  | _, _, _ => false
  end.

(** The entry's content page is opened and never closed. *)
Definition leaks (c : Candidate) : bool :=
  entry_ok c && both_present c && newPage_ok (detail c)
  && negb (extraction_ok (detail c) && close_ok (detail c)).


(** A host whose [sayAndCreateMissingParamError] answers, with no query. *)
Definition no_query_params : Params := mkParams None None None None None.

(** The entries of the listing, none when the listing was not read. *)
Definition entries_of (env : Env) : list Candidate :=
  match listing env with Some l => l | None => [] end.



Definition is_ask (e : Event) : bool :=
  match fst e with AskApproval _ => true | _ => false end.

Definition is_mkdir (e : Event) : bool :=
  match fst e with Mkdir _ => true | _ => false end.

(* ================================================================== *)
(** ** Strings, sets and slices *)

Lemma str_eqb_eq (a b : jsstring) : str_eqb a b = true <-> a = b.
Proof.
  revert b; induction a as [|x a IH]; intros [|y b]; simpl; split;
    try congruence; try reflexivity.
  - rewrite andb_true_iff, N.eqb_eq, IH. now intros [-> ->].
  - intros E; injection E as -> ->. now rewrite N.eqb_refl, (proj2 (IH b)).
Qed.

Lemma str_eqb_refl (a : jsstring) : str_eqb a a = true.
Proof. now apply str_eqb_eq. Qed.

Lemma str_eqb_neq (a b : jsstring) : str_eqb a b = false <-> a <> b.
Proof.
  rewrite <- str_eqb_eq. destruct (str_eqb a b); split; congruence.
Qed.

Lemma set_has_In (s : StrSet) (x : jsstring) : set_has s x = true <-> In x s.
Proof.
  unfold set_has. rewrite existsb_exists. split.
  - intros (y & Hy & E). apply str_eqb_eq in E. now subst.
  - intros H. exists x. split; [assumption | apply str_eqb_refl].
Qed.

Lemma set_has_app (s t : StrSet) (x : jsstring) :
  set_has (s ++ t) x = set_has s x || set_has t x.
Proof. unfold set_has. apply existsb_app. Qed.

Lemma filter_filter {A : Type} (p q : A -> bool) (l : list A) :
  filter p (filter q l) = filter (fun x => q x && p x) l.
Proof.
  induction l as [|x l IH]; simpl; [reflexivity|].
  destruct (q x); simpl; [destruct (p x)|]; now rewrite IH.
Qed.

Lemma dedup_filter (p : jsstring -> bool) (l : list jsstring) :
  dedup (filter p l) = filter p (dedup l).
Proof.
  induction l as [|x l IH]; simpl; [reflexivity|].
  destruct (p x) eqn:Px; simpl.
  - rewrite IH, !filter_filter. f_equal. apply filter_ext.
    intros y. apply andb_comm.
  - rewrite IH, filter_filter. apply filter_ext_in. intros y _.
    destruct (str_eqb x y) eqn:E; simpl; [|reflexivity].
    apply str_eqb_eq in E. subst. now rewrite Px.
Qed.

Lemma dedup_incl (l : list jsstring) (x : jsstring) : In x (dedup l) -> In x l.
Proof.
  induction l as [|y l IH]; simpl; [tauto|].
  rewrite filter_In. tauto.
Qed.

Lemma dedup_NoDup (l : list jsstring) : NoDup (dedup l).
Proof.
  induction l as [|x l IH]; simpl; constructor.
  - rewrite filter_In, str_eqb_refl. simpl. intros [_ H]; discriminate.
  - now apply NoDup_filter.
Qed.

(** Adding the members of [l] one by one to the set [acc]. *)
Lemma fold_set_add (l : list jsstring) (acc : StrSet) :
  fold_left set_add l acc
  = acc ++ dedup (filter (fun x => negb (set_has acc x)) l).
Proof.
  revert acc; induction l as [|x l IH]; intros acc; simpl.
  - now rewrite app_nil_r.
  - unfold set_add at 2. destruct (set_has acc x) eqn:H; simpl.
    + apply IH.
    + rewrite IH, <- app_assoc. simpl. do 2 f_equal.
      rewrite <- dedup_filter, filter_filter. f_equal.
      apply filter_ext. intros y. rewrite set_has_app. unfold set_has at 2.
      simpl. rewrite orb_false_r, negb_orb.
      destruct (str_eqb y x) eqn:E1, (str_eqb x y) eqn:E2; try reflexivity.
      * apply str_eqb_eq in E1. apply str_eqb_neq in E2. congruence.
      * apply str_eqb_eq in E2. apply str_eqb_neq in E1. congruence.
Qed.

Lemma slice_prefix {A : Type} (l : list A) (n : nat) :
  slice l 0 (Z.of_nat n) = firstn n l.
Proof.
  unfold slice. change (0 <? 0) with false. cbv iota.
  destruct (Z.of_nat n <? 0) eqn:E; [apply Z.ltb_lt in E; lia|].
  rewrite (Z.min_l 0) by lia. simpl skipn. rewrite Z.sub_0_r.
  destruct (Z.min_spec (Z.of_nat n) (Z.of_nat (length l))) as [[H ->]|[H ->]].
  - now rewrite Nat2Z.id.
  - rewrite Nat2Z.id, !firstn_all2; [reflexivity | lia | lia].
Qed.

(** From a start position inside the array, [slice(i, i + w)] is the window
    of [w] elements that starts at [i]. *)
Lemma slice_window {A : Type} (l : list A) (i : nat) (w : Z) :
  0 <= w -> slice l (Z.of_nat i) (Z.of_nat i + w) = firstn (Z.to_nat w) (skipn i l).
Proof.
  intros Hw. unfold slice.
  destruct (Z.of_nat i <? 0) eqn:E1; [apply Z.ltb_lt in E1; lia|].
  destruct (Z.of_nat i + w <? 0) eqn:E2; [apply Z.ltb_lt in E2; lia|].
  destruct (Nat.le_gt_cases i (length l)) as [Hi|Hi].
  - rewrite (Z.min_l (Z.of_nat i)) by lia. rewrite Nat2Z.id.
    destruct (Z.min_spec (Z.of_nat i + w) (Z.of_nat (length l))) as [[H ->]|[H ->]].
    + f_equal. lia.
    + rewrite !firstn_all2; [reflexivity | rewrite length_skipn; lia
                             | rewrite length_skipn; lia].
  - rewrite !skipn_all2 by lia. now rewrite !firstn_nil.
Qed.


(* ================================================================== *)
(** ** Result processor: what the loops compute *)

Lemma fold_keep_add {A : Type} (f : A -> jsstring) (l : list A) (acc : StrSet) :
  fold_left (fun acc i => if keep_phrase (f i) then set_add acc (f i) else acc)
    l acc
  = fold_left set_add (filter keep_phrase (List.map f l)) acc.
Proof.
  revert acc; induction l as [|i l IH]; intros acc; simpl; [reflexivity|].
  destruct (keep_phrase (f i)); simpl; apply IH.
Qed.

Lemma scan_result_examined (windowSize : num) (acc : StrSet) (r : WebSearchResult) :
  scan_result windowSize acc r
  = fold_left set_add (filter keep_phrase (examined_in windowSize r)) acc.
Proof.
  unfold scan_result, examined_in, scan_words.
  destruct (content r) as [c|]; [|reflexivity].
  destruct windowSize as [|w]; [now destruct (truthy c)|].
  destruct (truthy c); [|reflexivity].
  apply fold_keep_add.
Qed.

Lemma scan_results_examined (windowSize : num) (results : list WebSearchResult)
  (acc : StrSet) :
  fold_left (scan_result windowSize) results acc
  = fold_left set_add (filter keep_phrase (examined results windowSize)) acc.
Proof.
  revert acc; induction results as [|r rs IH]; intros acc; simpl; [reflexivity|].
  rewrite IH, scan_result_examined, filter_app, fold_left_app. reflexivity.
Qed.

Lemma extractKeyPhrases_examined (results : list WebSearchResult) (windowSize : num) :
  extractKeyPhrases results windowSize
  = firstn 5 (dedup (filter keep_phrase (examined results windowSize))).
Proof.
  unfold extractKeyPhrases. change 5 with (Z.of_nat 5).
  rewrite slice_prefix, scan_results_examined, fold_set_add. simpl app.
  do 2 f_equal. rewrite filter_filter. apply filter_ext. intros x.
  apply andb_true_r.
Qed.

Lemma keep_phrase_range (p : jsstring) :
  keep_phrase p = true <-> 30 < strlen p < 150.
Proof.
  unfold keep_phrase. rewrite andb_true_iff, !Z.ltb_lt. tauto.
Qed.

Lemma In_firstn {A : Type} (n : nat) (l : list A) (x : A) :
  In x (firstn n l) -> In x l.
Proof.
  revert n; induction l as [|y l IH]; intros [|n]; simpl; try tauto.
  intros [H|H]; [now left | right; now apply (IH n)].
Qed.

Lemma NoDup_firstn {A : Type} (n : nat) (l : list A) : NoDup l -> NoDup (firstn n l).
Proof.
  revert n; induction l as [|x l IH]; intros [|n] H; simpl; try constructor.
  - inversion H; subst. intros Hin. apply In_firstn in Hin. contradiction.
  - inversion H; subst. now apply IH.
Qed.

(** With a window that is not negative, the phrase built at start position
    [i] is the window of [w] words at [i], joined with single spaces. *)
Lemma phrase_at_window (words : list jsstring) (w : Z) (i : nat) :
  0 <= w -> phrase_at words w i = join (lit " ") (window words (Z.to_nat w) i).
Proof.
  intros Hw. unfold phrase_at, window. now rewrite slice_window.
Qed.

Lemma examined_in_reached (w : Z) (r : WebSearchResult) :
  0 <= w -> examined_in (Num w) r = reached_windows (Z.to_nat w) r.
Proof.
  intros Hw. unfold examined_in, reached_windows.
  destruct (content r) as [c|]; [|reflexivity].
  destruct (truthy c); [|reflexivity].
  replace (Z.to_nat (Z.of_nat (length (split_ws c)) - w))
    with (length (split_ws c) - Z.to_nat w)%nat by lia.
  apply map_ext. intros i. now apply phrase_at_window.
Qed.

Lemma examined_reached (w : Z) (results : list WebSearchResult) :
  0 <= w -> examined results (Num w) = flat_map (reached_windows (Z.to_nat w)) results.
Proof.
  intros Hw. unfold examined. induction results as [|r rs IH]; simpl;
    [reflexivity|]. now rewrite IH, examined_in_reached.
Qed.

(** The pieces of [split_ws] hold no white space. *)
Lemma split_go_no_space (s cur : jsstring) (in_run : bool) :
  forallb (fun c => negb (is_space c)) cur = true ->
  Forall (fun piece => forallb (fun c => negb (is_space c)) piece = true)
    (split_go s cur in_run).
Proof.
  revert cur in_run; induction s as [|c s IH]; intros cur in_run Hcur; simpl.
  - constructor; [|constructor]. rewrite forallb_forall in *.
    intros x Hx. apply Hcur. now apply in_rev.
  - destruct (is_space c) eqn:Hc.
    + destruct in_run.
      * now apply IH.
      * constructor; [|now apply IH].
        rewrite forallb_forall in *. intros x Hx. apply Hcur. now apply in_rev.
    + apply IH. simpl. now rewrite Hc, Hcur.
Qed.

Lemma split_ws_no_space (s : jsstring) :
  Forall (fun piece => forallb (fun c => negb (is_space c)) piece = true) (split_ws s).
Proof. now apply split_go_no_space. Qed.

Lemma join_nonempty (sep : jsstring) (l : list jsstring) :
  l <> [] -> (forall x, In x l -> x <> []) -> join sep l <> [].
Proof.
  destruct l as [|x rest]; [congruence|]. intros _ H.
  assert (Hx : x <> []) by (apply H; now left).
  simpl. destruct rest; [assumption|].
  destruct x; [congruence | discriminate].
Qed.

Lemma has_headings_nonempty (r : WebSearchResult) :
  has_headings r = true -> headings_of r <> [].
Proof.
  unfold has_headings, headings_of. destruct (headings r) as [[|h hs]|]; congruence.
Qed.

Lemma truthy_nonempty (s : jsstring) : truthy s = true <-> s <> [].
Proof. destruct s; simpl; split; congruence. Qed.

Lemma summary_text_empty (results : list WebSearchResult) :
  existsb has_headings results = false -> summary_text results = [].
Proof.
  intros H. unfold summary_text.
  replace (filter has_headings results) with (@nil WebSearchResult); [reflexivity|].
  induction results as [|r rs IH]; simpl in *; [reflexivity|].
  apply orb_false_iff in H as [-> H]. now apply IH.
Qed.

Lemma summary_text_nonempty (results : list WebSearchResult) :
  (forall r h, In r results -> In h (headings_of r) -> h <> []) ->
  existsb has_headings results = true -> summary_text results <> [].
Proof.
  intros Hh H. unfold summary_text. apply join_nonempty.
  - apply existsb_exists in H as (r & Hr & Hhas).
    intros E. apply map_eq_nil in E.
    assert (Hin : In r (filter has_headings results)) by now apply filter_In.
    rewrite E in Hin. contradiction.
  - intros x Hx. apply in_map_iff in Hx as (r & <- & Hr).
    apply filter_In in Hr as [Hr Hhas]. apply join_nonempty.
    + now apply has_headings_nonempty.
    + intros h. now apply Hh.
Qed.

(* ================================================================== *)
(** ** Result processor: the claims *)

(** C8. For every list of results and every window size, [extractKeyPhrases]
    returns at most 5 phrases, pairwise distinct, each of a length strictly
    between 30 and 150, and they are the first distinct kept phrases in the
    order the loops discover them across the results. *)
Theorem extractKeyPhrases_five_distinct_in_order
  (results : list WebSearchResult) (windowSize : num) :
  (length (extractKeyPhrases results windowSize) <= 5)%nat
  /\ NoDup (extractKeyPhrases results windowSize)
  /\ Forall (fun p => 30 < strlen p < 150) (extractKeyPhrases results windowSize)
  /\ extractKeyPhrases results windowSize
     = firstn 5 (dedup (filter keep_phrase (examined results windowSize))).
Proof.
  rewrite extractKeyPhrases_examined. repeat split.
  - apply firstn_le_length.
  - apply NoDup_firstn, dedup_NoDup.
  - apply Forall_forall. intros p Hp.
    apply In_firstn, dedup_incl, filter_In in Hp as [_ Hp].
    now apply keep_phrase_range in Hp.
Qed.

(** C4, as the specification words it, fails: with six tokens and a window
    of five, the window at start position 1 is a window of five words of
    length 34, yet the loop stops before it and the result holds only the
    window at position 0. *)
Lemma last_window_never_examined :
  In (lit "bbbbbb cccccc dddddd eeeeee ffffff") (spec_windows 5 six_words)
  /\ keep_phrase (lit "bbbbbb cccccc dddddd eeeeee ffffff") = true
  /\ extractKeyPhrases [six_words] (Num 5)
     = [lit "aaaaaa bbbbbb cccccc dddddd eeeeee"]
  /\ extractKeyPhrases [six_words] (Num 5)
     <> firstn 5 (dedup (filter keep_phrase (flat_map (spec_windows 5) [six_words]))).
Proof.
  repeat split; try (vm_compute; tauto). vm_compute. discriminate.
Qed.

(** C4, amended. For a positive window size, the content of every result
    with non-empty content is split on white space (no token holds a white
    space character), and the candidate phrases are the windows of
    [windowSize] words, joined with single spaces, at the start positions
    [0 <= i < tokens - windowSize] (step 1); a result with
    [windowSize >= tokens] contributes none. *)
Theorem extractKeyPhrases_reached_windows
  (results : list WebSearchResult) (windowSize : Z) :
  0 < windowSize ->
  extractKeyPhrases results (Num windowSize)
  = firstn 5 (dedup (filter keep_phrase
                       (flat_map (reached_windows (Z.to_nat windowSize)) results)))
  /\ (forall r, Z.of_nat (token_count r) <= windowSize ->
                reached_windows (Z.to_nat windowSize) r = [])
  /\ (forall c, Forall (fun token => forallb (fun u => negb (is_space u)) token
                                     = true) (split_ws c)).
Proof.
  intros Hw. split; [|split].
  - rewrite extractKeyPhrases_examined, examined_reached by lia. reflexivity.
  - intros r Hr. unfold reached_windows, token_count in *.
    destruct (content r) as [c|]; [|reflexivity].
    destruct (truthy c); [|reflexivity].
    replace (length (split_ws c) - Z.to_nat windowSize)%nat with 0%nat by lia.
    reflexivity.
  - exact split_ws_no_space.
Qed.

Lemma extractKeyPhrases_reached_windows_witness :
  0 < 6
  /\ extractKeyPhrases [six_words; eight_words] (Num 6)
     = [lit "gggggg hhhhhh iiiiii jjjjjj kkkkkk llllll";
        lit "hhhhhh iiiiii jjjjjj kkkkkk llllll mmmmmm"]
  /\ reached_windows 6 six_words = [].
Proof.
  assert (H : 0 < 6) by lia. split; [exact H|].
  destruct (extractKeyPhrases_reached_windows [six_words; eight_words] 6 H)
    as (E & N & _).
  split.
  - rewrite E. vm_compute. reflexivity.
  - apply N. vm_compute. discriminate.
Defined.






(** C5, as stated, fails both ways round: a headings sequence whose only
    member is the empty string is not empty, yet the empty join is falsy
    and the fallback is returned; and a page whose only heading spells the
    fallback text gets that very text as its summary. *)
Lemma fallback_despite_headings :
  has_headings (one_heading []) = true
  /\ generateSearchSummary [one_heading []] = fallback_summary
  /\ has_headings (one_heading fallback_summary) = true
  /\ generateSearchSummary [one_heading fallback_summary] = fallback_summary.
Proof. repeat split. Qed.

(** C5, amended. For every list of results whose headings are non-empty
    strings (what [filter(Boolean)] leaves), the summary is the newline-join
    of the [" > "]-joined headings of the results that have a non-empty
    headings sequence, and that text is not empty, when there is such a
    result; it is the fallback text when there is none. So the fallback
    text is returned exactly when no result has headings or the joined
    headings themselves spell it. *)
Theorem generateSearchSummary_join_or_fallback (results : list WebSearchResult) :
  forallb (fun r => forallb truthy (headings_of r)) results = true ->
  generateSearchSummary results
  = (if existsb has_headings results then summary_text results
     else fallback_summary)
  /\ (existsb has_headings results = true -> summary_text results <> [])
  /\ (generateSearchSummary results = fallback_summary
      <-> existsb has_headings results = false
          \/ summary_text results = fallback_summary).
Proof.
  intros Hall.
  assert (Hh : forall r h, In r results -> In h (headings_of r) -> h <> []).
  { intros r h Hr Hin. rewrite forallb_forall in Hall.
    specialize (Hall r Hr). rewrite forallb_forall in Hall.
    now apply truthy_nonempty, Hall. }
  assert (E : generateSearchSummary results
              = if existsb has_headings results then summary_text results
                else fallback_summary).
  { unfold generateSearchSummary.
    destruct (existsb has_headings results) eqn:Hex.
    - destruct (summary_text results) eqn:Hs; [|reflexivity].
      now apply summary_text_nonempty in Hs.
    - now rewrite summary_text_empty. }
  split; [exact E|]. split; [now apply summary_text_nonempty|].
  rewrite E. destruct (existsb has_headings results); split; intros H.
  - now right.
  - destruct H; [discriminate | assumption].
  - now left.
  - reflexivity.
Qed.

Lemma generateSearchSummary_join_or_fallback_witness :
  forallb (fun r => forallb truthy (headings_of r))
    [eight_words; one_heading (lit "C"); six_words] = true
  /\ generateSearchSummary [eight_words; one_heading (lit "C"); six_words]
     = lit "A > B" ++ newline ++ lit "C".
Proof.
  assert (H : forallb (fun r => forallb truthy (headings_of r))
                [eight_words; one_heading (lit "C"); six_words] = true)
    by reflexivity.
  split; [exact H|].
  destruct (generateSearchSummary_join_or_fallback _ H) as (E & _ & _).
  rewrite E. reflexivity.
Defined.

(* ================================================================== *)
(** ** Orchestrator: the loop *)

Lemma for_range_visit (searchResults : list Candidate) (n i : nat) (s : State) :
  (i + n <= length searchResults)%nat ->
  for_range i n (visit searchResults) s
  = loop_from i (firstn n (skipn i searchResults)) s.
Proof.
  revert i s; induction n as [|n IH]; intros i s Hlen; simpl; [reflexivity|].
  destruct (nth_error searchResults i) as [c|] eqn:Hc.
  - assert (E : skipn i searchResults = c :: skipn (S i) searchResults).
    { clear - Hc. revert i Hc.
      induction searchResults as [|x l IHl]; intros [|i] Hc; simpl in *;
        try discriminate.
      - now injection Hc as ->.
      - now apply IHl. }
    rewrite E. simpl. unfold bind, visit. rewrite Hc.
    destruct (visit_entry c i s) as [[u|] s']; [|reflexivity].
    apply IH. lia.
  - apply nth_error_None in Hc. lia.
Qed.

(** One turn of the loop, as a function of the entry. *)
Lemma visit_entry_effect (c : Candidate) (i : nat) (s : State) :
  exists evs,
    visit_entry c i s
    = (if entry_ok c then Some tt else None,
       mkState (trace s ++ evs)
         (results s ++ if entry_ok c then pushed c else [])
         (browser s)
         (pages s + if entry_ok c && both_present c && newPage_ok (detail c)
                    then 1 else 0))
    /\ forallb in_loop evs = true.
Proof.
  destruct c as [ok t sn [np gt bt ct ht cl]], s as [tr rs br pg].
  unfold visit_entry, pushed, both_present, extraction_ok, full_result,
    partial_result, listed_title, listed_url, listed_snippet,
    extract_content, try_catch, bind, attempt, await, newPage, emit,
    push_result, record, ret. simpl.
  destruct ok; simpl;
    [|eexists; split; [rewrite ?(app_nil_r rs), ?Nat.add_0_r; reflexivity|reflexivity]].
  destruct t as [t|]; simpl;
    [|eexists; split; [rewrite ?(app_nil_r rs), ?Nat.add_0_r; reflexivity|reflexivity]].
  destruct sn as [sn|]; simpl;
    [|eexists; split; [rewrite ?(app_nil_r rs), ?Nat.add_0_r; reflexivity|reflexivity]].
  destruct np; simpl;
    [|eexists; split; [rewrite <- ?app_assoc, ?Nat.add_0_r; reflexivity|reflexivity]].
  replace (pg + 1)%nat with (S pg) by lia.
  destruct gt; simpl;
    [|eexists; split; [rewrite <- ?app_assoc; reflexivity|reflexivity]].
  destruct bt as [bt|]; simpl;
    [|eexists; split; [rewrite <- ?app_assoc; reflexivity|reflexivity]].
  destruct ct as [ct|]; simpl;
    [|eexists; split; [rewrite <- ?app_assoc; reflexivity|reflexivity]].
  destruct ht as [ht|]; simpl;
    [|eexists; split; [rewrite <- ?app_assoc; reflexivity|reflexivity]].
  destruct cl; simpl;
    eexists; (split; [rewrite <- ?app_assoc; reflexivity|reflexivity]).
Qed.

Lemma loop_from_effect (entries : list Candidate) (i : nat) (s : State) :
  exists evs rs pg,
    loop_from i entries s
    = (if forallb entry_ok entries then Some tt else None,
       mkState (trace s ++ evs) rs (browser s) pg)
    /\ forallb in_loop evs = true
    /\ (forallb entry_ok entries = true ->
        rs = results s ++ flat_map pushed entries).
Proof.
  revert i s; induction entries as [|c rest IH]; intros i s.
  - exists [], (results s), (pages s). simpl. rewrite !app_nil_r.
    now destruct s.
  - destruct (visit_entry_effect c i s) as (evs1 & E1 & W1).
    cbn [loop_from forallb]. unfold bind. rewrite E1.
    destruct (entry_ok c) eqn:Hc; cbn [andb].
    + match goal with |- context [loop_from (S i) rest ?s1] =>
        destruct (IH (S i) s1) as (evs2 & rs & pg & E2 & W2 & R2); rewrite E2 end.
      exists (evs1 ++ evs2), rs, pg. cbn [trace results browser] in *.
      rewrite <- app_assoc. split; [reflexivity|].
      split; [now rewrite forallb_app, W1, W2|].
      intros H. rewrite (R2 H). cbn [flat_map]. now rewrite app_assoc.
    + exists evs1. do 2 eexists. split; [reflexivity|].
      split; [exact W1 | discriminate].
Qed.

Lemma loop_bound_le (len : nat) (maxResults : num) :
  (loop_bound len maxResults <= len)%nat.
Proof. destruct maxResults as [|m]; simpl; lia. Qed.

Arguments lit : simpl never.
Arguments JSON_stringify : simpl never.
Arguments formatSearchResults : simpl never.
Arguments search_url : simpl never.
Arguments message_of : simpl never.
Arguments resultsDir_of : simpl never.
Arguments assemble : simpl never.

(** The loop of [search], started in the state [s]. *)
Lemma search_loop_effect (env : Env) (params : Params)
  (searchResults : list Candidate) (s : State) :
  exists evs rs pg,
    for_range 0 (loop_bound (length searchResults) (maxResults_of env params))
      (visit searchResults) s
    = (if forallb entry_ok (visited env params searchResults)
       then Some tt else None,
       mkState (trace s ++ evs) rs (browser s) pg)
    /\ forallb in_loop evs = true
    /\ (forallb entry_ok (visited env params searchResults) = true ->
        rs = results s ++ flat_map pushed (visited env params searchResults)).
Proof.
  rewrite for_range_visit by (pose proof (loop_bound_le (length searchResults)
                                            (maxResults_of env params)); lia).
  cbn [skipn]. apply loop_from_effect.
Qed.

Lemma run_healthy (env : Env) (params : Params) (searchResults : list Candidate) :
  healthy env params searchResults ->
  exists evs pg,
    run env params
    = (if browser_close_ok env then Some tt else None,
       mkState
         (opening env params ++ evs
            ++ closing env params (flat_map pushed (visited env params searchResults)))
         (flat_map pushed (visited env params searchResults)) true pg)
    /\ forallb in_loop evs = true.
Proof.
  intros (Hq & Hmk & Hap & Hch & Hla & Hsp & Hin & Hgo & Hli & Hen & Hwr).
  unfold run, webSearchTool, try_finally, try_catch, webSearchTool_try, search.
  rewrite Hq, Hmk, Hap, Hch, Hla, Hsp, Hin, Hgo, Hli, Hwr.
  cbv beta iota zeta delta [negb bind attempt await newPage emit ret set_browser
    get_results get_browser record initial trace results browser pages].
  cbn [app].
  match goal with |- context [for_range 0 ?n ?f ?s] =>
    destruct (search_loop_effect env params searchResults s)
      as (evs & rs & pg & E & W & R) end.
  rewrite E. fold (visited env params searchResults) in Hen. rewrite Hen in *.
  cbv beta iota zeta delta [trace results browser pages].
  specialize (R eq_refl). cbn [app] in R. subst rs.
  exists evs, pg. split; [|exact W].
  unfold opening, closing, processed_of, resultsPath_of.
  destruct (browser_close_ok env); cbv beta iota;
    rewrite <- !app_assoc; reflexivity.
Qed.

Lemma completed_is_write (s : State) :
  completed s <-> existsb is_write (trace s) = true.
Proof.
  unfold completed. rewrite existsb_exists. split.
  - intros (f & d & H). now exists (WriteFile f d, true).
  - intros ([c ok] & Hin & Hw). destruct c; try discriminate.
    destruct ok; [|discriminate]. eauto.
Qed.

Ltac run_step :=
  cbv beta iota zeta delta [negb bind attempt await newPage emit ret set_browser
    get_results get_browser record initial trace results browser pages snd fst].

Lemma in_loop_no_write (evs : list Event) :
  forallb in_loop evs = true -> existsb is_write evs = false.
Proof.
  induction evs as [|[c ok] evs IH]; simpl; [reflexivity|].
  intros H. apply andb_true_iff in H as [Hc H]. rewrite (IH H).
  destruct c; try discriminate; reflexivity.
Qed.

Ltac no_write W :=
  run_step; let C := fresh "C" in
  intros C; rewrite ?existsb_app, ?W in C; cbn in C; discriminate C.

(** A run that wrote its artifact met no failure outside the detail pages. *)
Lemma run_completed_healthy (env : Env) (params : Params) :
  completed (snd (run env params)) ->
  exists searchResults, healthy env params searchResults.
Proof.
  rewrite completed_is_write.
  unfold healthy, run, webSearchTool, try_finally, try_catch, webSearchTool_try,
    search.
  destruct (handleError_ok env), (browser_close_ok env);
    (destruct (truthy (query_of env params));
     [|destruct (missing_param_reply env); no_write I]);
    (destruct (mkdir_ok env); [|no_write I]);
    (destruct (approval env) as [[|]|]; [|no_write I|no_write I]);
    (destruct (chromium_ok env); [|no_write I]);
    (destruct (launch_ok env); [|no_write I]);
    (destruct (search_page_ok env); [|no_write I]);
    (destruct (interception_ok env); [|no_write I]);
    (destruct (search_goto_ok env); [|no_write I]);
    (destruct (listing env) as [searchResults|]; [|no_write I]);
    run_step; cbn [app];
    match goal with |- context [for_range 0 ?n ?f ?s] =>
      destruct (search_loop_effect env params searchResults s)
        as (evs & rs & pg & E & W & R) end;
    apply in_loop_no_write in W;
    rewrite E; fold (visited env params searchResults);
    (destruct (forallb entry_ok (visited env params searchResults)) eqn:Hen;
     [|no_write W]);
    (destruct (writeFile_ok env); [|no_write W]);
    intros _; exists searchResults; repeat split; exact Hen.
Qed.

Lemma pushed_length (c : Candidate) :
  close_ok (detail c) = true -> (length (pushed c) <= 1)%nat.
Proof.
  intros H. unfold pushed. rewrite H.
  destruct (both_present c), (extraction_ok (detail c)); simpl; lia.
Qed.

Lemma pushed_listed (c : Candidate) (r : WebSearchResult) :
  In r (pushed c) ->
  both_present c = true /\ title r = listed_title c /\ url r = listed_url c
  /\ snippet r = listed_snippet c.
Proof.
  unfold pushed. destruct (both_present c); [|contradiction].
  destruct (extraction_ok (detail c)), (close_ok (detail c)); simpl;
    intuition (subst; reflexivity).
Qed.



Lemma flat_map_length_le {A B : Type} (f : A -> list B) (l : list A) :
  (forall a, In a l -> (length (f a) <= 1)%nat) ->
  (length (flat_map f l) <= length l)%nat.
Proof.
  induction l as [|a l IH]; intros H; simpl; [lia|].
  rewrite length_app. specialize (H a (or_introl eq_refl)) as Ha.
  assert (length (flat_map f l) <= length l)%nat
    by (apply IH; intros b Hb; apply H; now right).
  lia.
Qed.

Lemma visited_length (env : Env) (params : Params) (searchResults : list Candidate)
  (m : Z) :
  maxResults_of env params = Num m -> 0 <= m ->
  Z.of_nat (length (visited env params searchResults)) <= m.
Proof.
  intros E Hm. unfold visited. rewrite E, length_firstn. simpl. lia.
Qed.

(** The state a healthy run leaves. *)
Lemma run_healthy_state (env : Env) (params : Params)
  (searchResults : list Candidate) :
  healthy env params searchResults ->
  results (snd (run env params)) = flat_map pushed (visited env params searchResults)
  /\ exists evs,
       trace (snd (run env params))
       = opening env params ++ evs
           ++ closing env params (results (snd (run env params)))
       /\ forallb in_loop evs = true.
Proof.
  intros H. destruct (run_healthy env params searchResults H)
    as (evs & pg & E & W).
  rewrite E. cbn [snd results trace]. split; [reflexivity|].
  now exists evs.
Qed.

(* ================================================================== *)
(** ** Orchestrator: the claims *)

(** C1, as stated, fails: the output directory is created before the
    approval is asked, so a declined invocation has already written to the
    file system. *)
Lemma directory_created_before_decline :
  approval (example_env (Some false) []) = Some false
  /\ trace (snd (run (example_env (Some false) []) (example_params None)))
     = [(Mkdir (lit "/work/./web-search-results"), true);
        (AskApproval
           (message_of (example_env (Some false) []) (example_params None)),
         true)]
  /\ existsb is_fs_write
       (trace (snd (run (example_env (Some false) []) (example_params None))))
     = true.
Proof. repeat split. Qed.

(** C1, amended. When the approval gate is reached and declines, the
    invocation returns with no browser launched, no page opened or fetched,
    no file written and no result pushed: the one effect besides the
    question itself is the creation of the output directory, which is done
    before the gate is asked. *)
Theorem decline_leaves_only_directory (env : Env) (params : Params) :
  truthy (query_of env params) = true ->
  mkdir_ok env = true ->
  approval env = Some false ->
  run env params
  = (Some tt,
     mkState [(Mkdir (resultsDir_of env params), true);
              (AskApproval (message_of env params), true)]
       [] false 0).
Proof.
  intros Hq Hm Ha.
  unfold run, webSearchTool, try_finally, try_catch, webSearchTool_try.
  rewrite Hq, Hm, Ha. reflexivity.
Qed.

Lemma decline_leaves_only_directory_witness :
  run (example_env (Some false) [entry "A" (page_ok "text" [])])
    (example_params None)
  = (Some tt,
     mkState
       [(Mkdir (lit "/work/./web-search-results"), true);
        (AskApproval
           (mkMessage (lit "Search for foo") (lit "/work/./web-search-results")
              (lit "foo") None (Num 5)), true)]
       [] false 0).
Proof.
  apply (decline_leaves_only_directory
           (example_env (Some false) [entry "A" (page_ok "text" [])])
           (example_params None)); reflexivity.
Defined.




(** C3 at the failing input: the detail page of the first entry times out.
    The page 1 is opened and navigated, the navigation rejects, and no call
    closes the page: it stays open while the next entry's page 2 is opened,
    used and closed, until the browser itself is closed at the end. *)
Lemma content_page_left_open_after_timeout :
  filter (on_page 1) (trace (snd (run timeout_env two_params)))
  = [(NewPage 1, true); (Goto 1 (lit "https://example.org/A"), false)]
  /\ filter (on_page 2) (trace (snd (run timeout_env two_params)))
     = [(NewPage 2, true); (Goto 2 (lit "https://example.org/B"), true);
        (EvaluateContent 2, true); (EvaluateCode 2, true);
        (EvaluateHeadings 2, true); (ClosePage 2, true)]
  /\ last (trace (snd (run timeout_env two_params))) (Mistake, false)
     = (CloseBrowser, true).
Proof. repeat split. Qed.

(** The second half of C3 holds: once the browser is launched, the last
    call of the invocation, on every path, closes it. *)
Lemma browser_closed_on_every_path (env : Env) (params : Params) :
  In (Launch, true) (trace (snd (run env params))) ->
  exists before ok,
    trace (snd (run env params)) = before ++ [(CloseBrowser, ok)].
Proof.
  unfold run, webSearchTool, try_finally, try_catch, webSearchTool_try, search.
  destruct (handleError_ok env), (browser_close_ok env);
    (destruct (truthy (query_of env params));
     [|destruct (missing_param_reply env); run_step; cbn; intuition discriminate]);
    (destruct (mkdir_ok env); [|run_step; cbn; intuition discriminate]);
    (destruct (approval env) as [[|]|];
     [|run_step; cbn; intuition discriminate
      |run_step; cbn; intuition discriminate]);
    (destruct (chromium_ok env); [|run_step; cbn; intuition discriminate]);
    (destruct (launch_ok env); [|run_step; cbn; intuition discriminate]);
    (destruct (search_page_ok env); [|run_step; do 2 eexists; reflexivity]);
    (destruct (interception_ok env); [|run_step; do 2 eexists; reflexivity]);
    (destruct (search_goto_ok env); [|run_step; do 2 eexists; reflexivity]);
    (destruct (listing env) as [searchResults|];
     [|run_step; do 2 eexists; reflexivity]);
    run_step;
    match goal with |- context [for_range 0 ?n ?f ?s] =>
      destruct (search_loop_effect env params searchResults s)
        as (evs & rs & pg & E & W & R) end;
    rewrite E;
    (destruct (forallb entry_ok (visited env params searchResults));
     [|run_step; do 2 eexists; reflexivity]);
    (destruct (writeFile_ok env); run_step; do 2 eexists; reflexivity).
Qed.

(** C6, as stated, fails: the test is on the elements, not on their text.
    An anchor and a paragraph without text give an entry whose title and
    snippet are empty, and an anchor without [href] one whose url is empty,
    in a run that completes. *)
Lemma entry_with_empty_fields :
  existsb is_write (trace (snd (run blank_env two_params))) = true
  /\ List.map (fun r => (title r, url r, snippet r))
       (results (snd (run blank_env two_params)))
     = [([], lit "https://example.org/blank", []);
        (lit "C", [], lit "about C")].
Proof. repeat split. Qed.

(** C6, amended. For every valid request and every run that completes, in
    which the content pages close without error, the results are at most
    [maxResults], and every entry carries what the listing gave for a
    candidate that has both a title element and a snippet element: the text
    of each, or the empty string, and the [href] of the title's anchor. *)
Theorem results_bounded_and_listed (env : Env) (params : Params)
  (searchResults : list Candidate) (m : Z) :
  listing env = Some searchResults ->
  maxResults_of env params = Num m ->
  0 < m ->
  forallb (fun c => close_ok (detail c)) searchResults = true ->
  completed (snd (run env params)) ->
  Z.of_nat (length (results (snd (run env params)))) <= m
  /\ Forall (fun r => exists c,
               In c searchResults /\ both_present c = true
               /\ title r = listed_title c /\ url r = listed_url c
               /\ snippet r = listed_snippet c)
       (results (snd (run env params))).
Proof.
  intros Hl Hm Hpos Hclose Hc.
  destruct (run_completed_healthy env params Hc) as (L & H).
  assert (L = searchResults).
  { destruct H as (_ & _ & _ & _ & _ & _ & _ & _ & E & _). congruence. }
  subst L. destruct (run_healthy_state env params searchResults H) as (R & _).
  rewrite R. rewrite forallb_forall in Hclose. split.
  - pose proof (visited_length env params searchResults m Hm (Z.lt_le_incl _ _ Hpos)).
    assert (length (flat_map pushed (visited env params searchResults))
            <= length (visited env params searchResults))%nat; [|lia].
    apply flat_map_length_le. intros c Hin. apply pushed_length, Hclose.
    now apply In_firstn in Hin.
  - apply Forall_forall. intros r Hr. apply in_flat_map in Hr as (c & Hin & Hr).
    exists c. split; [now apply In_firstn in Hin | now apply pushed_listed].
Qed.

Lemma results_bounded_and_listed_witness :
  Z.of_nat (length (results (snd (run gap_env two_params)))) <= 2
  /\ Forall (fun r => exists c,
               In c gap_listing /\ both_present c = true
               /\ title r = listed_title c /\ url r = listed_url c
               /\ snippet r = listed_snippet c)
       (results (snd (run gap_env two_params))).
Proof.
  apply (results_bounded_and_listed gap_env two_params gap_listing 2);
    try reflexivity.
  apply completed_is_write. reflexivity.
Defined.



(* ================================================================== *)
(** ** JSON text: parsing what was printed *)

Lemma hex_value_digit (n : N) : (n < 16)%N -> hex_value (hex_digit n) = Some n.
Proof.
  intros H. unfold hex_digit, hex_value.
  destruct (N.ltb_spec n 10) as [L|L].
  - replace ((48 <=? 48 + n) && (48 + n <=? 57))%N with true.
    + f_equal. lia.
    + symmetry. apply andb_true_iff. split; apply N.leb_le; lia.
  - replace ((48 <=? 87 + n) && (87 + n <=? 57))%N with false.
    + replace ((97 <=? 87 + n) && (87 + n <=? 102))%N with true.
      * f_equal. lia.
      * symmetry. apply andb_true_iff. split; apply N.leb_le; lia.
    + symmetry. apply andb_false_iff. right. apply N.leb_gt. lia.
Qed.

Lemma hex_digits_value (c : N) :
  (c < 65536)%N ->
  ((c / 4096) mod 16 * 4096 + (c / 256) mod 16 * 256 + (c / 16) mod 16 * 16
   + c mod 16 = c)%N.
Proof.
  intros H.
  pose proof (N.div_mod c 16 ltac:(lia)).
  pose proof (N.div_mod (c / 16) 16 ltac:(lia)).
  pose proof (N.div_mod (c / 256) 16 ltac:(lia)).
  pose proof (N.mod_lt c 16 ltac:(lia)).
  pose proof (N.mod_lt (c / 16) 16 ltac:(lia)).
  pose proof (N.mod_lt (c / 256) 16 ltac:(lia)).
  assert (E1 : (c / 256 = c / 16 / 16)%N) by (rewrite N.Div0.div_div; reflexivity).
  assert (E2 : (c / 4096 = c / 256 / 16)%N) by (rewrite N.Div0.div_div; reflexivity).
  assert (c / 4096 < 16)%N by (apply N.Div0.div_lt_upper_bound; lia).
  rewrite (N.mod_small (c / 4096) 16) by assumption.
  pose proof (N.div_mod (c / 256) 16 ltac:(lia)).
  rewrite <- E2 in *. rewrite <- E1 in *. lia.
Qed.

Lemma parse_unicode_escape (c : N) (rest : jsstring) :
  (c < 65536)%N ->
  parse_chars (unicode_escape c ++ rest) = push_unit c (parse_chars rest).
Proof.
  intros H. unfold unicode_escape. cbn [app parse_chars].
  change (92 =? 34)%N with false. change (92 =? 92)%N with true.
  change (117 =? 117)%N with true. cbv iota.
  rewrite !hex_value_digit by (apply N.mod_lt; lia).
  now rewrite hex_digits_value.
Qed.

Lemma parse_raw_unit (c : N) (rest : jsstring) :
  c <> 34%N -> c <> 92%N -> (32 <= c)%N ->
  parse_chars (c :: rest) = push_unit c (parse_chars rest).
Proof.
  intros H1 H2 H3. cbn [parse_chars].
  rewrite (proj2 (N.eqb_neq c 34) H1), (proj2 (N.eqb_neq c 92) H2).
  now rewrite (proj2 (N.ltb_ge c 32) H3).
Qed.

Lemma parse_escape_unit (c : N) (rest : jsstring) :
  parse_chars (escape_unit c ++ rest) = push_unit c (parse_chars rest).
Proof.
  unfold escape_unit.
  destruct (N.eqb_spec c 8) as [->|?]; [reflexivity|].
  destruct (N.eqb_spec c 9) as [->|?]; [reflexivity|].
  destruct (N.eqb_spec c 10) as [->|?]; [reflexivity|].
  destruct (N.eqb_spec c 12) as [->|?]; [reflexivity|].
  destruct (N.eqb_spec c 13) as [->|?]; [reflexivity|].
  destruct (N.eqb_spec c 34) as [->|?]; [reflexivity|].
  destruct (N.eqb_spec c 92) as [->|?]; [reflexivity|].
  destruct (N.ltb_spec c 32).
  - apply parse_unicode_escape. lia.
  - now apply parse_raw_unit.
Qed.

Lemma parse_surrogate (c : N) (rest : jsstring) :
  is_high_surrogate c = true \/ is_low_surrogate c = true ->
  parse_chars (c :: rest) = push_unit c (parse_chars rest)
  /\ parse_chars (unicode_escape c ++ rest) = push_unit c (parse_chars rest).
Proof.
  unfold is_high_surrogate, is_low_surrogate.
  rewrite !andb_true_iff, !N.leb_le. intros H. split.
  - apply parse_raw_unit; lia.
  - apply parse_unicode_escape. lia.
Qed.

(** The body of a quoted string, up to its closing quote, reads back. *)
Lemma parse_quote_body (s rest : jsstring) :
  parse_chars (quote_body s ++ 34%N :: rest) = Some (s, rest).
Proof.
  remember (length s) as n eqn:Hn. revert s Hn.
  induction n as [n IH] using lt_wf_ind. intros s Hn.
  destruct s as [|c s]; [reflexivity|].
  assert (Hs : parse_chars (quote_body s ++ 34%N :: rest) = Some (s, rest))
    by (apply (IH (length s)); [subst; simpl; lia | reflexivity]).
  cbn [quote_body].
  destruct (is_high_surrogate c) eqn:Hh.
  - destruct s as [|d s'].
    + cbn [app]. rewrite (proj2 (parse_surrogate c _ (or_introl Hh))).
      reflexivity.
    + destruct (is_low_surrogate d) eqn:Hl.
      * cbn [app].
        rewrite (proj1 (parse_surrogate c _ (or_introl Hh))).
        rewrite (proj1 (parse_surrogate d _ (or_intror Hl))).
        rewrite (IH (length s')); [reflexivity | subst; simpl; lia | reflexivity].
      * rewrite <- app_assoc.
        rewrite (proj2 (parse_surrogate c _ (or_introl Hh))), Hs. reflexivity.
  - destruct (is_low_surrogate c) eqn:Hl.
    + rewrite <- app_assoc.
      rewrite (proj2 (parse_surrogate c _ (or_intror Hl))), Hs. reflexivity.
    + rewrite <- app_assoc, parse_escape_unit, Hs. reflexivity.
Qed.

Lemma parse_quote (s rest : jsstring) :
  exists body, quote s ++ rest = 34%N :: body
               /\ parse_chars body = Some (s, rest).
Proof.
  exists (quote_body s ++ 34%N :: rest). split.
  - unfold quote. cbn [app]. now rewrite <- app_assoc.
  - apply parse_quote_body.
Qed.
(** Induction on JSON values, with the members of arrays and objects. *)
Lemma json_induction (P : json -> Prop)
  (HS : forall s, P (JStr s))
  (HA : forall items, Forall P items -> P (JArr items))
  (HO : forall members, Forall (fun m => P (snd m)) members -> P (JObj members)) :
  forall j, P j.
Proof.
  fix IH 1. intros [s|items|members].
  - apply HS.
  - apply HA. revert items. fix IHl 1. intros [|x l]; constructor.
    + apply IH.
    + apply IHl.
  - apply HO. revert members. fix IHl 1. intros [|[k v] l]; constructor.
    + apply IH.
    + apply IHl.
Qed.


Lemma skip_ws_app (ws x : jsstring) :
  forallb is_json_ws ws = true -> skip_ws (ws ++ x) = skip_ws x.
Proof.
  induction ws as [|c ws IH]; simpl; [reflexivity|].
  intros H. apply andb_true_iff in H as [-> H]. now apply IH.
Qed.

Lemma indent_ws (depth : nat) : forallb is_json_ws (indent depth) = true.
Proof.
  unfold indent. induction (2 * depth)%nat as [|n IH]; simpl; [reflexivity|].
  exact IH.
Qed.

Lemma line_ws (depth : nat) :
  forallb is_json_ws (newline ++ indent depth) = true.
Proof. simpl. apply indent_ws. Qed.

(** A printed value starts with a quote, a bracket or a brace. *)
Lemma stringify_head (depth : nat) (j : json) :
  exists c tl, stringify depth j = c :: tl
               /\ (c = 34 \/ c = 91 \/ c = 123)%N.
Proof.
  destruct j as [s|[|x items]|[|m members]];
    (do 2 eexists; split; [reflexivity | tauto]).
Qed.

Lemma skip_ws_stringify (depth : nat) (j : json) (ws rest : jsstring) :
  forallb is_json_ws ws = true ->
  skip_ws (ws ++ stringify depth j ++ rest) = stringify depth j ++ rest.
Proof.
  intros H. rewrite skip_ws_app by assumption.
  destruct (stringify_head depth j) as (c & tl & -> & [-> | [-> | ->]]);
    reflexivity.
Qed.

Lemma stringify_array (depth : nat) (x : json) (items : list json) :
  stringify depth (JArr (x :: items))
  = 91%N :: newline ++ indent (S depth)
      ++ join (item_separator (S depth))
           (List.map (stringify (S depth)) (x :: items))
      ++ newline ++ indent depth ++ [93%N].
Proof. reflexivity. Qed.

Lemma stringify_object (depth : nat) (m : jsstring * json)
  (members : list (jsstring * json)) :
  stringify depth (JObj (m :: members))
  = 123%N :: newline ++ indent (S depth)
      ++ join (item_separator (S depth))
           (List.map (fun m => quote (fst m) ++ [58; 32]%N
                                 ++ stringify (S depth) (snd m)) (m :: members))
      ++ newline ++ indent depth ++ [125%N].
Proof. reflexivity. Qed.

Lemma stringify_length (depth : nat) (j : json) :
  (2 <= length (stringify depth j))%nat.
Proof.
  destruct j as [s|[|x items]|[|m members]].
  - unfold stringify, quote. cbn [length]. rewrite length_app. cbn [length]. lia.
  - cbn. lia.
  - rewrite stringify_array. cbn [length]. rewrite !length_app. cbn [length]. lia.
  - cbn. lia.
  - rewrite stringify_object. cbn [length]. rewrite !length_app. cbn [length]. lia.
Qed.

Lemma join_two (sep x y : jsstring) (l : list jsstring) :
  join sep (x :: y :: l) = x ++ sep ++ join sep (y :: l).
Proof. reflexivity. Qed.

Lemma skip_ws_comma (x : jsstring) : skip_ws (44%N :: x) = 44%N :: x.
Proof. reflexivity. Qed.

Lemma parse_items_printed (items : list json) :
  items <> [] -> Forall reads_back items ->
  forall depth ws tail rest fuel,
    forallb is_json_ws ws = true ->
    skip_ws tail = 93%N :: rest ->
    (length (join (item_separator depth) (List.map (stringify depth) items))
     < fuel)%nat ->
    parse_items fuel
      (ws ++ join (item_separator depth) (List.map (stringify depth) items)
          ++ tail)
    = Some (items, rest).
Proof.
  induction items as [|x items IH]; [congruence|].
  intros _ HF depth ws tail rest fuel Hws Htail Hfuel.
  inversion HF as [|? ? Hx HF']; subst.
  destruct fuel as [|fuel]; [lia|]. cbn [parse_items].
  destruct items as [|y items].
  - cbn [List.map join] in *. rewrite (Hx depth ws tail fuel Hws) by lia.
    rewrite Htail. reflexivity.
  - cbn [List.map] in *. rewrite join_two in *. rewrite length_app in Hfuel.
    rewrite <- !app_assoc. rewrite (Hx depth ws _ fuel Hws) by lia.
    unfold item_separator at 1. cbn [app]. rewrite skip_ws_comma.
    change (44 =? 44)%N with true. cbv iota.
    rewrite (IH ltac:(congruence) HF' depth (newline ++ indent depth) tail rest
               fuel (line_ws depth) Htail).
    + reflexivity.
    + rewrite length_app in Hfuel.
      pose proof (stringify_length depth x). lia.
Qed.

Lemma parse_members_printed (members : list (jsstring * json)) :
  members <> [] -> Forall (fun m => reads_back (snd m)) members ->
  forall depth ws tail rest fuel,
    forallb is_json_ws ws = true ->
    skip_ws tail = 125%N :: rest ->
    (length (join (item_separator depth)
               (List.map (fun m => quote (fst m) ++ [58; 32]%N
                                     ++ stringify depth (snd m)) members))
     < fuel)%nat ->
    parse_members fuel
      (ws ++ join (item_separator depth)
               (List.map (fun m => quote (fst m) ++ [58; 32]%N
                                     ++ stringify depth (snd m)) members)
          ++ tail)
    = Some (members, rest).
Proof.
  induction members as [|[k v] members IH]; [congruence|].
  intros _ HF depth ws tail rest fuel Hws Htail Hfuel.
  inversion HF as [|? ? Hv HF']; subst. cbn [snd] in Hv.
  destruct fuel as [|fuel]; [lia|]. cbn [parse_members].
  rewrite skip_ws_app by assumption.
  assert (Hval : forall more,
             parse_value fuel (32%N :: stringify depth v ++ more)
             = Some (v, more)).
  { intros more. apply (Hv depth [32%N] more fuel eq_refl).
    destruct members as [|m members]; cbn [List.map join fst snd] in Hfuel.
    - rewrite !length_app in Hfuel. lia.
    - rewrite !length_app in Hfuel. lia. }
  destruct members as [|m members].
  - cbn [List.map join fst snd] in *. rewrite <- !app_assoc.
    destruct (parse_quote k ([58; 32]%N ++ stringify depth v ++ tail))
      as (body & -> & Hb).
    change (skip_ws (34%N :: body)) with (34%N :: body). cbv iota.
    change (34 =? 34)%N with true. cbv iota. rewrite Hb. cbn [app].
    change (skip_ws (58%N :: ?t)) with (58%N :: t). cbv iota.
    change (58 =? 58)%N with true. cbv iota.
    rewrite Hval, Htail. reflexivity.
  - cbn [List.map] in *. rewrite join_two in *. cbn [fst snd] in *.
    rewrite <- !app_assoc.
    match goal with |- context [quote k ++ ?r] =>
      destruct (parse_quote k r) as (body & -> & Hb) end.
    change (skip_ws (34%N :: body)) with (34%N :: body). cbv iota.
    change (34 =? 34)%N with true. cbv iota. rewrite Hb. cbn [app].
    change (skip_ws (58%N :: ?t)) with (58%N :: t). cbv iota.
    change (58 =? 58)%N with true. cbv iota.
    rewrite Hval. unfold item_separator at 1. cbn [app].
    rewrite skip_ws_comma. change (44 =? 44)%N with true. cbv iota.
    rewrite !length_app in Hfuel. pose proof (stringify_length depth v).
    match type of Hfuel with
    | context [length (join ?sep ?l)] =>
        assert (E : (length (join sep l) < fuel)%nat) by lia
    end.
    apply (IH ltac:(congruence) HF' depth (newline ++ indent depth) tail rest
             fuel (line_ws depth) Htail) in E.
    lazymatch type of E with
    | ?l = _ =>
        match goal with
        | |- with_first ?f _ = ?r => change (with_first f l = r)
        end
    end.
    rewrite E. reflexivity.
Qed.

Lemma join_printed_head {A : Type} (f : A -> jsstring) (sep tail : jsstring)
  (x : A) (l : list A) :
  (exists c tl, f x = c :: tl /\ c <> 93%N /\ c <> 125%N /\ is_json_ws c = false) ->
  exists c tl, join sep (List.map f (x :: l)) ++ tail = c :: tl
               /\ c <> 93%N /\ c <> 125%N /\ is_json_ws c = false.
Proof.
  intros (c & tl & E & H). cbn [List.map]. destruct l as [|y l].
  - cbn [List.map join]. rewrite E. cbn [app]. eauto.
  - cbn [List.map]. rewrite join_two, E. cbn [app]. eauto.
Qed.

Lemma stringify_head_open (depth : nat) (j : json) :
  exists c tl, stringify depth j = c :: tl
               /\ c <> 93%N /\ c <> 125%N /\ is_json_ws c = false.
Proof.
  destruct (stringify_head depth j) as (c & tl & E & [-> | [-> | ->]]);
    eexists; exists tl; (split; [exact E|]); repeat split; discriminate.
Qed.

(** Every printed value reads back. *)
Lemma reads_back_all (j : json) : reads_back j.
Proof.
  induction j as [s|items IH|members IH] using json_induction;
    intros depth ws rest fuel Hws Hfuel;
    (destruct fuel as [|fuel];
     [pose proof (stringify_length depth
                    ltac:(first [exact (JStr s) | exact (JArr items)
                                | exact (JObj members)])); lia|]);
    cbn [parse_value]; rewrite skip_ws_stringify by assumption.
  - cbn [stringify]. destruct (parse_quote s rest) as (body & -> & Hb).
    change (34 =? 34)%N with true. cbv iota. rewrite Hb. reflexivity.
  - destruct items as [|x items]; [reflexivity|].
    rewrite stringify_array in *. rewrite <- app_comm_cons. cbv iota.
    change (91 =? 34)%N with false. change (91 =? 91)%N with true. cbv iota.
    rewrite <- !app_assoc.
    change (newline ++ indent (S depth) ++ ?t)
      with ((newline ++ indent (S depth)) ++ t).
    rewrite skip_ws_app by apply line_ws.
    destruct (join_printed_head (stringify (S depth)) (item_separator (S depth))
                (newline ++ indent depth ++ [93%N] ++ rest) x items
                (stringify_head_open (S depth) x))
      as (c & tl & E & N1 & N2 & N3).
    rewrite E. cbn [skip_ws]. rewrite N3.
    rewrite (proj2 (N.eqb_neq c 93) N1), <- E.
    rewrite (parse_items_printed (x :: items) ltac:(congruence) IH (S depth)
               (newline ++ indent (S depth))
               (newline ++ indent depth ++ [93%N] ++ rest) rest fuel).
    + reflexivity.
    + apply line_ws.
    + change (newline ++ indent depth ++ ?t)
        with ((newline ++ indent depth) ++ t).
      rewrite skip_ws_app by apply line_ws. reflexivity.
    + cbn [length] in Hfuel. rewrite !length_app in Hfuel.
      cbn [length] in Hfuel. lia.
  - destruct members as [|m members]; [reflexivity|].
    rewrite stringify_object in *. rewrite <- app_comm_cons. cbv iota.
    change (123 =? 34)%N with false. change (123 =? 91)%N with false.
    change (123 =? 123)%N with true. cbv iota.
    rewrite <- !app_assoc.
    change (newline ++ indent (S depth) ++ ?t)
      with ((newline ++ indent (S depth)) ++ t).
    rewrite skip_ws_app by apply line_ws.
    destruct (join_printed_head
                (fun m => quote (fst m) ++ [58; 32]%N
                            ++ stringify (S depth) (snd m))
                (item_separator (S depth))
                (newline ++ indent depth ++ [125%N] ++ rest) m members)
      as (c & tl & E & N1 & N2 & N3).
    { exists 34%N. eexists. split; [reflexivity|].
      repeat split; discriminate. }
    match goal with
    | |- context [skip_ws ?t] =>
        lazymatch type of E with ?l = _ => change t with l end
    end.
    rewrite E. cbn [skip_ws]. rewrite N3.
    rewrite (proj2 (N.eqb_neq c 125) N2), <- E.
    assert (Htail : skip_ws (newline ++ indent depth ++ [125%N] ++ rest)
                    = 125%N :: rest).
    { change (newline ++ indent depth ++ ?t)
        with ((newline ++ indent depth) ++ t).
      rewrite skip_ws_app by apply line_ws. reflexivity. }
    cbn [length] in Hfuel. rewrite !length_app in Hfuel. cbn [length] in Hfuel.
    match type of Hfuel with
    | context [length (join ?sep ?l)] =>
        assert (Hlen : (length (join sep l) < fuel)%nat) by lia
    end.
    pose proof (parse_members_printed (m :: members) ltac:(congruence) IH
                  (S depth) (newline ++ indent (S depth))
                  (newline ++ indent depth ++ [125%N] ++ rest) rest fuel
                  (line_ws (S depth)) Htail Hlen) as PM.
    match goal with
    | |- with_first JObj ?p = _ =>
        lazymatch type of PM with ?l = _ => change p with l end
    end.
    rewrite PM. reflexivity.
Qed.

(** [JSON.parse(JSON.stringify(v, null, 2))] is [v]. *)
Lemma JSON_parse_stringify (depth : nat) (j : json) :
  JSON_parse (stringify depth j) = Some j.
Proof.
  unfold JSON_parse.
  pose proof (reads_back_all j depth [] [] (S (length (stringify depth j)))
                eq_refl ltac:(lia)) as E.
  cbn [app] in E. rewrite app_nil_r in E. rewrite E. reflexivity.
Qed.

(* ================================================================== *)
(** ** The artifact: reading back a [ProcessedResults] *)

Lemma all_some_map {A B : Type} (f : B -> option A) (g : A -> B) (l : list A) :
  (forall x, f (g x) = Some x) ->
  all_some (List.map f (List.map g l)) = Some l.
Proof.
  intros H. induction l as [|x l IH]; simpl; [reflexivity|].
  now rewrite H, IH.
Qed.

Lemma as_strings_json_strings (l : list jsstring) :
  as_strings (json_strings l) = Some l.
Proof. unfold as_strings, json_strings. now apply all_some_map. Qed.

Lemma result_of_json_of_result (r : WebSearchResult) :
  result_of_json (json_of_result r) = Some r.
Proof.
  destruct r as [t u s [c|] [cs|] [hs|]];
    cbv -[as_strings json_strings]; rewrite ?as_strings_json_strings;
    reflexivity.
Qed.

Lemma as_results_of_results (l : list WebSearchResult) :
  as_results (JArr (List.map json_of_result l)) = Some l.
Proof. unfold as_results. apply all_some_map, result_of_json_of_result. Qed.

Lemma processed_of_json_of_processed (p : ProcessedResults) :
  processed_of_json (json_of_processed p) = Some p.
Proof.
  destruct p as [q [d|] rs ks sm ts]; unfold json_of_processed;
    cbn [pr_query pr_domain pr_results pr_keyPhrases pr_searchSummary
         pr_timestamp];
    remember (JArr (List.map json_of_result rs)) as R eqn:ER;
    cbv -[as_strings json_strings as_results]; subst R;
    rewrite as_results_of_results, as_strings_json_strings; reflexivity.
Qed.

(** Parsing the text [JSON.stringify] wrote for a [ProcessedResults] gives
    that value back. *)
Lemma parse_artifact_stringify (p : ProcessedResults) :
  parse_artifact (JSON_stringify p) = Some p.
Proof.
  unfold parse_artifact, JSON_stringify.
  now rewrite JSON_parse_stringify, processed_of_json_of_processed.
Qed.



(* ================================================================== *)
(** ** Scenarios *)

(** A listing of three entries with [max_results] 2: two results, and the
    summary of their headings. *)
Example two_of_three_results :
  List.map title
    (results (snd (run (example_env (Some true) three_listing) two_params)))
  = [lit "A"; lit "B"]
  /\ generateSearchSummary
       (results (snd (run (example_env (Some true) three_listing) two_params)))
     = lit "A > B" ++ newline ++ lit "C".
Proof. split; reflexivity. Qed.

(** When [contentPage.close()] rejects, the full entry is already in the
    array and the [catch] block pushes the entry a second time: with
    [max_results] 1 the array then holds two entries. This is why the bound
    on the number of results asks for content pages that close. *)
Example close_failure_pushes_twice :
  maxResults_of close_fails_env (example_params (Some (lit "1"))) = Num 1
  /\ List.map (fun r => (title r, content r))
       (results (snd (run close_fails_env (example_params (Some (lit "1"))))))
     = [(lit "A", Some (lit "text A")); (lit "A", None)].
Proof. split; reflexivity. Qed.

(** The artifact of a run, read back by evaluation. *)
Example artifact_reads_back :
  List.map parse_artifact (written (snd (run timeout_env two_params)))
  = [Some (mkProcessed (lit "foo") None
             [mkResult (lit "A") (lit "https://example.org/A") (lit "about A")
                None None None;
              mkResult (lit "B") (lit "https://example.org/B") (lit "about B")
                (Some (lit "text B")) (Some []) (Some [lit "C"])]
             [] (lit "C") (lit "2025-01-01T00:00:00.000Z"))].
Proof. vm_compute. reflexivity. Qed.

(* ================================================================== *)
(** ** Result processor: tokens and the width of windows *)

Lemma split_go_not_nil (s cur : jsstring) (in_run : bool) :
  split_go s cur in_run <> [].
Proof.
  revert cur in_run; induction s as [|c s IH]; intros cur in_run; simpl;
    [discriminate|].
  destruct (is_space c); [destruct in_run|]; try apply IH; discriminate.
Qed.

Lemma removelast_cons {A : Type} (x : A) (l : list A) :
  l <> [] -> removelast (x :: l) = x :: removelast l.
Proof. destruct l; [congruence | reflexivity]. Qed.

(** Every piece but the last is non-empty, once the piece being read is
    non-empty or a separator has just been passed. *)
Lemma split_go_pieces (s : jsstring) :
  (forall cur, cur <> [] ->
               Forall (fun t => t <> []) (removelast (split_go s cur false)))
  /\ Forall (fun t => t <> []) (removelast (split_go s [] true)).
Proof.
  induction s as [|c s [IHa IHb]]; simpl.
  - split; intros; constructor.
  - destruct (is_space c); split.
    + intros cur Hcur. rewrite removelast_cons by apply split_go_not_nil.
      constructor; [|exact IHb].
      intros E. apply Hcur. apply (f_equal (@rev N)) in E.
      now rewrite rev_involutive in E.
    + exact IHb.
    + intros cur Hcur. apply IHa. discriminate.
    + apply IHa. discriminate.
Qed.

(** Between the first and the last token, no token of [split_ws] is empty. *)
Lemma split_ws_inner_tokens (s : jsstring) :
  Forall (fun t => t <> []) (removelast (tl (split_ws s))).
Proof.
  unfold split_ws. destruct s as [|c s]; simpl; [constructor|].
  destruct (split_go_pieces s) as [Ha Hb].
  destruct (is_space c); simpl; [exact Hb|].
  specialize (Ha [c] ltac:(discriminate)).
  destruct (split_go s [c] false) as [|x l] eqn:E; [constructor|].
  destruct l as [|y l]; [constructor|].
  rewrite removelast_cons in Ha by discriminate.
  now inversion Ha.
Qed.

Lemma join_length (sep : jsstring) (l : list jsstring) :
  l <> [] ->
  (length (join sep l) + length sep
   = total_length l + length sep * length l)%nat.
Proof.
  unfold total_length.
  induction l as [|x l IH]; [congruence|]. intros _.
  destruct l as [|y l].
  - simpl. lia.
  - change (join sep (x :: y :: l)) with (x ++ sep ++ join sep (y :: l)).
    rewrite !length_app. specialize (IH ltac:(discriminate)).
    cbn [List.map list_sum fold_right length] in *.
    rewrite !Nat.mul_succ_r in *. lia.
Qed.

Lemma total_length_nonempty (l : list jsstring) :
  Forall (fun t => t <> []) l -> (length l <= total_length l)%nat.
Proof.
  unfold total_length. induction 1 as [|x l Hx _ IH]; simpl; [lia|].
  destruct x; [congruence|]. simpl. lia.
Qed.

Lemma In_skipn {A : Type} (n : nat) (l : list A) (x : A) :
  In x (skipn n l) -> In x l.
Proof.
  revert l; induction n as [|n IH]; intros [|y l]; simpl; try tauto.
  intros H. right. now apply IH.
Qed.

Lemma skipn_tl {A : Type} (n : nat) (l : list A) :
  skipn (S n) l = skipn n (tl l).
Proof. destruct l; simpl; [now rewrite skipn_nil | reflexivity]. Qed.

(** A window that stops before the last element lies in [removelast]. *)
Lemma window_in_removelast {A : Type} (l : list A) (i k : nat) (x : A) :
  (i + k < length l)%nat -> In x (firstn k (skipn i l)) -> In x (removelast l).
Proof.
  intros H Hin. rewrite removelast_firstn_len.
  assert (E : firstn k (skipn i l)
              = firstn k (skipn i (firstn (pred (length l)) l))).
  { rewrite skipn_firstn_comm, firstn_firstn. f_equal. lia. }
  rewrite E in Hin. now apply In_firstn, In_skipn in Hin.
Qed.

(** In a window the loop reaches, every token after the first is non-empty:
    the window stops before the last token. *)
Lemma window_tail_nonempty (c : jsstring) (w i : nat) :
  (i + w < length (split_ws c))%nat ->
  Forall (fun t => t <> []) (tl (window (split_ws c) w i)).
Proof.
  intros H. unfold window. destruct w as [|w]; [constructor|].
  destruct (skipn i (split_ws c)) as [|x rest] eqn:E.
  - constructor.
  - cbn [firstn tl].
    assert (Er : rest = skipn i (tl (split_ws c))).
    { rewrite <- skipn_tl. change rest with (tl (x :: rest)). rewrite <- E.
      clear. generalize (split_ws c) as l. induction i as [|i IH]; intros l.
      - reflexivity.
      - destruct l as [|y l]; [reflexivity|]. simpl skipn at 1.
        rewrite IH. destruct l; reflexivity. }
    rewrite Er. apply Forall_forall. intros t Ht.
    pose proof (split_ws_inner_tokens c) as Hin.
    rewrite Forall_forall in Hin. apply Hin.
    apply (window_in_removelast _ i w); [|exact Ht].
    clear - H. destruct (split_ws c) as [|z l]; cbn [tl length] in *;
      unfold jsstring in *; lia.
Qed.

Lemma window_length (words : list jsstring) (w i : nat) :
  (i + w <= length words)%nat -> length (window words w i) = w.
Proof.
  intros H. unfold window. rewrite length_firstn, length_skipn. lia.
Qed.

(** A phrase the loop builds from [w] words has at least [w - 1] spaces and
    [w - 1] non-empty words. *)
Lemma phrase_at_long (c : jsstring) (w : Z) (i : nat) :
  0 < w -> Z.of_nat i < Z.of_nat (length (split_ws c)) - w ->
  2 * w - 2 <= strlen (phrase_at (split_ws c) w i).
Proof.
  intros Hw Hi. rewrite phrase_at_window by lia. unfold strlen.
  assert (Hlen : (i + Z.to_nat w < length (split_ws c))%nat) by lia.
  pose proof (window_tail_nonempty c (Z.to_nat w) i Hlen) as Ht.
  pose proof (window_length (split_ws c) (Z.to_nat w) i ltac:(lia)) as Hl.
  destruct (window (split_ws c) (Z.to_nat w) i) as [|x rest] eqn:E;
    [simpl in Hl; lia|].
  pose proof (join_length (lit " ") (x :: rest) ltac:(discriminate)) as J.
  apply total_length_nonempty in Ht. cbn [tl] in Ht.
  unfold total_length in *. cbn [List.map list_sum fold_right length] in *.
  change (length (lit " ")) with 1%nat in J. unfold jsstring, list_sum in *. lia.
Qed.

Lemma filter_none {A : Type} (p : A -> bool) (l : list A) :
  (forall x, In x l -> p x = false) -> filter p l = [].
Proof.
  induction l as [|x l IH]; intros H; simpl; [reflexivity|].
  rewrite (H x) by now left. apply IH. intros y Hy. apply H. now right.
Qed.

(** What the loops examine with a positive window: a window the loop
    reaches, of the tokens of some result's content. *)
Lemma examined_is_window (results : list WebSearchResult) (w : Z) (p : jsstring) :
  0 < w -> In p (examined results (Num w)) ->
  exists c i,
    (i + Z.to_nat w < length (split_ws c))%nat
    /\ p = phrase_at (split_ws c) w i
    /\ p = join (lit " ") (window (split_ws c) (Z.to_nat w) i).
Proof.
  intros Hw Hin. unfold examined in Hin. apply in_flat_map in Hin as (r & _ & Hin).
  unfold examined_in in Hin. destruct (content r) as [c|]; [|contradiction].
  destruct (truthy c); [|contradiction].
  apply in_map_iff in Hin as (i & <- & Hi). apply in_seq in Hi.
  exists c, i. split; [lia|]. split; [reflexivity|].
  apply phrase_at_window. lia.
Qed.

Lemma examined_long (results : list WebSearchResult) (w : Z) (p : jsstring) :
  0 < w -> In p (examined results (Num w)) -> 2 * w - 2 <= strlen p.
Proof.
  intros Hw Hin.
  destruct (examined_is_window results w p Hw Hin) as (c & i & Hi & -> & _).
  apply phrase_at_long; lia.
Qed.

Lemma wide_window_keeps_nothing (results : list WebSearchResult) (w : Z) :
  76 <= w -> extractKeyPhrases results (Num w) = [].
Proof.
  intros Hw. rewrite extractKeyPhrases_examined, filter_none; [reflexivity|].
  intros p Hp. apply examined_long in Hp; [|lia].
  unfold keep_phrase. apply andb_false_iff. right. apply Z.ltb_ge. lia.
Qed.

Lemma split_go_token (t tail cur : jsstring) :
  no_space t = true ->
  split_go (t ++ tail) cur false = split_go tail (rev t ++ cur) false.
Proof.
  revert cur; induction t as [|u t IH]; intros cur H; [reflexivity|].
  cbn in H. apply andb_true_iff in H as [Hu H]. apply negb_true_iff in Hu.
  cbn [app split_go]. rewrite Hu, (IH _ H). cbn [rev].
  now rewrite <- app_assoc.
Qed.

Lemma split_go_after_run (s : jsstring) (u : N) (cur : jsstring) :
  is_space u = false ->
  split_go (u :: s) [] true = split_go (u :: s) [] false.
Proof. intros H. cbn [split_go]. now rewrite H. Qed.

(** Tokens without white space, all non-empty after the first, are what
    [split(/\s+/)] reads back from their join with single spaces. *)
Lemma split_join_tokens (l : list jsstring) (cur : jsstring) :
  l <> [] ->
  Forall (fun t => no_space t = true) l ->
  Forall (fun t => t <> []) (tl l) ->
  split_go (join (lit " ") l) cur false = (rev cur ++ hd [] l) :: tl l.
Proof.
  revert cur; induction l as [|t l IH]; [congruence|].
  intros cur _ Hs Hn. inversion Hs as [|? ? Ht Hs']; subst.
  destruct l as [|u l].
  - cbn [join hd tl]. rewrite <- (app_nil_r t) at 1.
    rewrite split_go_token by assumption. cbn [split_go].
    now rewrite rev_app_distr, rev_involutive.
  - change (join (lit " ") (t :: u :: l))
      with (t ++ lit " " ++ join (lit " ") (u :: l)).
    rewrite split_go_token by assumption.
    change (lit " " ++ ?x) with (32%N :: x). cbn [split_go].
    change (is_space 32) with true. cbv iota.
    rewrite rev_app_distr, rev_involutive. cbn [hd tl]. f_equal.
    cbn [tl] in Hn. inversion Hn as [|? ? Hu Hn']; subst.
    inversion Hs' as [|? ? Hus _]; subst.
    assert (IHu := IH [] ltac:(discriminate) Hs' Hn'). cbn [rev app hd tl] in IHu.
    destruct u as [|u0 u]; [congruence|].
    assert (E : exists s, join (lit " ") ((u0 :: u) :: l) = u0 :: s)
      by (destruct l; eexists; reflexivity).
    destruct E as (s & E). unfold jsstring in *. rewrite E in IHu |- *.
    rewrite (split_go_after_run s u0 []); [exact IHu|].
    cbn in Hus. apply andb_true_iff in Hus as [Hus _].
    now apply negb_true_iff in Hus.
Qed.

Lemma window_tokens_no_space (c : jsstring) (w i : nat) :
  Forall (fun t => no_space t = true) (window (split_ws c) w i).
Proof.
  apply Forall_forall. intros t Ht. unfold window in Ht.
  apply In_firstn, In_skipn in Ht.
  pose proof (split_ws_no_space c) as H. rewrite Forall_forall in H.
  now apply H.
Qed.

(* ================================================================== *)
(** ** Result processor: further properties *)

(** X1. A phrase of [windowSize] words holds [windowSize - 1] spaces and at
    least [windowSize - 1] non-empty words, so every key phrase returned is
    at least [2 * windowSize - 2] long; from a window of 76 words on, and so
    with the default of 100, no phrase passes the test [length < 150] and
    the list of key phrases is empty whatever the pages hold. *)
Theorem extractKeyPhrases_window_width
  (results : list WebSearchResult) (windowSize : Z) :
  0 < windowSize ->
  Forall (fun p => 2 * windowSize - 2 <= strlen p)
    (extractKeyPhrases results (Num windowSize))
  /\ (76 <= windowSize -> extractKeyPhrases results (Num windowSize) = []).
Proof.
  intros Hw. split; [|apply wide_window_keeps_nothing].
  apply Forall_forall. intros p Hp. rewrite extractKeyPhrases_examined in Hp.
  apply In_firstn, dedup_incl, filter_In in Hp as [Hp _].
  now apply examined_long in Hp.
Qed.

Lemma extractKeyPhrases_window_width_witness :
  0 < 75
  /\ extractKeyPhrases [many_words] (Num 75)
     = [join (lit " ") (repeat (lit "a") 75)]
  /\ Forall (fun p => 148 <= strlen p) (extractKeyPhrases [many_words] (Num 75))
  /\ extractKeyPhrases [many_words] (Num 76) = [].
Proof.
  assert (H : 0 < 75) by lia. split; [exact H|].
  split; [vm_compute; reflexivity|].
  split.
  - exact (proj1 (extractKeyPhrases_window_width [many_words] 75 H)).
  - apply (extractKeyPhrases_window_width [many_words] 76); lia.
Defined.

(** X2. Every key phrase returned with a positive window size splits again,
    on white space, into exactly [windowSize] words, and joining those words
    with single spaces gives the phrase back. *)
Theorem key_phrase_splits_into_window
  (results : list WebSearchResult) (windowSize : Z) (p : jsstring) :
  0 < windowSize ->
  In p (extractKeyPhrases results (Num windowSize)) ->
  length (split_ws p) = Z.to_nat windowSize
  /\ join (lit " ") (split_ws p) = p.
Proof.
  intros Hw Hp. rewrite extractKeyPhrases_examined in Hp.
  apply In_firstn, dedup_incl, filter_In in Hp as [Hp _].
  destruct (examined_is_window results windowSize p Hw Hp)
    as (c & i & Hi & _ & ->).
  assert (Hl := window_length (split_ws c) (Z.to_nat windowSize) i ltac:(lia)).
  assert (E : split_ws (join (lit " ") (window (split_ws c) (Z.to_nat windowSize) i))
              = window (split_ws c) (Z.to_nat windowSize) i).
  { unfold split_ws at 1. rewrite split_join_tokens.
    - destruct (window (split_ws c) (Z.to_nat windowSize) i); [|reflexivity].
      simpl in Hl. lia.
    - intros E. rewrite E in Hl. simpl in Hl. lia.
    - apply window_tokens_no_space.
    - now apply window_tail_nonempty. }
  rewrite E. split; [exact Hl | reflexivity].
Qed.

Lemma key_phrase_splits_into_window_witness :
  length (split_ws (lit "gggggg hhhhhh iiiiii jjjjjj kkkkkk llllll")) = 6%nat
  /\ join (lit " ") (split_ws (lit "gggggg hhhhhh iiiiii jjjjjj kkkkkk llllll"))
     = lit "gggggg hhhhhh iiiiii jjjjjj kkkkkk llllll".
Proof.
  apply (key_phrase_splits_into_window [six_words; eight_words] 6); [lia|].
  vm_compute. left. reflexivity.
Defined.

(** X3. Without content there are no key phrases: when no result has a
    non-empty [content] (every detail extraction failed, or the list is
    empty), the list of key phrases is empty for every window size; and a
    [sliding_window_size] that does not parse ([NaN]) makes the loop
    condition false from the start, so the list is empty whatever the
    results hold. *)
Theorem extractKeyPhrases_nothing_to_scan
  (results : list WebSearchResult) (windowSize : num) :
  extractKeyPhrases results NaN = []
  /\ (forallb without_content results = true ->
      extractKeyPhrases results windowSize = []).
Proof.
  rewrite !extractKeyPhrases_examined. split.
  - replace (examined results NaN) with (@nil jsstring); [reflexivity|].
    unfold examined. induction results as [|r rs IH]; [reflexivity|].
    cbn [flat_map]. rewrite <- IH, app_nil_r. unfold examined_in.
    now destruct (content r).
  - intros H. replace (examined results windowSize) with (@nil jsstring);
      [reflexivity|].
    unfold examined. induction results as [|r rs IH]; [reflexivity|].
    cbn [forallb flat_map] in *. apply andb_true_iff in H as [Hr H].
    rewrite <- (IH H), app_nil_r. unfold examined_in, without_content in *.
    destruct (content r) as [c|]; [|reflexivity]. cbn in Hr.
    apply negb_true_iff in Hr. rewrite Hr. now destruct windowSize.
Qed.

Lemma extractKeyPhrases_nothing_to_scan_witness :
  extractKeyPhrases [one_heading (lit "C"); one_heading (lit "D")] (Num 3) = []
  /\ extractKeyPhrases [one_heading (lit "C"); one_heading (lit "D")] NaN = [].
Proof.
  destruct (extractKeyPhrases_nothing_to_scan
              [one_heading (lit "C"); one_heading (lit "D")] (Num 3)) as [N P].
  split; [apply P; reflexivity | exact N].
Defined.

(* ================================================================== *)
(** ** Orchestrator: counting calls *)

Lemma count_app (p : Event -> bool) (l1 l2 : list Event) :
  count p (l1 ++ l2) = (count p l1 + count p l2)%nat.
Proof. unfold count. now rewrite filter_app, length_app. Qed.

Lemma in_loop_filter (p : Event -> bool) (evs : list Event) :
  (forall e, in_loop e = true -> p e = false) ->
  forallb in_loop evs = true -> filter p evs = [].
Proof.
  intros Hp H. apply filter_none. intros e He.
  rewrite forallb_forall in H. auto.
Qed.





Lemma in_loop_count (p : Event -> bool) (evs : list Event) :
  (forall e, in_loop e = true -> p e = false) ->
  forallb in_loop evs = true -> count p evs = 0%nat.
Proof. intros Hp H. unfold count. now rewrite in_loop_filter. Qed.

Arguments resultsPath_of : simpl never.
Arguments processed_of : simpl never.

(** Going through the paths of one invocation: [fin] closes the paths that
    stop before the loop, [fin_loop] those that go through it, with the
    fact [W] that the loop made only its own calls. *)
Ltac run_paths env params fin fin_loop :=
  unfold run, webSearchTool, try_finally, try_catch, webSearchTool_try, search;
  destruct (handleError_ok env), (browser_close_ok env);
  (destruct (truthy (query_of env params));
   [|destruct (missing_param_reply env); run_step; fin]);
  (destruct (mkdir_ok env); [|run_step; fin]);
  (destruct (approval env) as [[|]|]; [|run_step; fin|run_step; fin]);
  (destruct (chromium_ok env); [|run_step; fin]);
  (destruct (launch_ok env); [|run_step; fin]);
  (destruct (search_page_ok env); [|run_step; fin]);
  (destruct (interception_ok env); [|run_step; fin]);
  (destruct (search_goto_ok env); [|run_step; fin]);
  (destruct (listing env) as [searchResults|]; [|run_step; fin]);
  run_step;
  match goal with
  | |- context [for_range 0 ?n ?f ?s] =>
      let evs := fresh "evs" in
      let rs := fresh "rs" in
      let pg := fresh "pg" in
      let E := fresh "E" in
      let W := fresh "W" in
      let R := fresh "R" in
      destruct (search_loop_effect env params searchResults s)
        as (evs & rs & pg & E & W & R);
      rewrite E;
      (destruct (forallb entry_ok (visited env params searchResults));
       [|run_step; fin_loop W]);
      (destruct (writeFile_ok env); run_step; fin_loop W)
  end.

(* ================================================================== *)
(** ** Orchestrator: further properties *)

(** X4. Without a query the invocation stops at the validation: it counts a
    mistake, asks the host for the missing-parameter message and pushes it as
    the tool result; it creates no directory, asks no approval and never
    touches the browser. When the host's message call rejects, the error
    goes to [handleError] instead. *)
Theorem missing_query_stops_at_validation (env : Env) (params : Params) :
  truthy (query_of env params) = false ->
  run env params
  = match missing_param_reply env with
    | Some text =>
        (Some tt,
         mkState [(Mistake, true); (SayMissingParam, true);
                  (PushToolResult text, true)] [] false 0)
    | None =>
        (if handleError_ok env then Some tt else None,
         mkState [(Mistake, true); (SayMissingParam, false);
                  (HandleError, handleError_ok env)] [] false 0)
    end.
Proof.
  intros Hq.
  unfold run, webSearchTool, try_finally, try_catch, webSearchTool_try.
  rewrite Hq. destruct (missing_param_reply env), (handleError_ok env);
    reflexivity.
Qed.

Lemma missing_query_stops_at_validation_witness :
  run (example_env (Some true) gap_listing) no_query_params
  = (Some tt,
     mkState [(Mistake, true); (SayMissingParam, true);
              (PushToolResult (lit "Missing value for required parameter"), true)]
       [] false 0).
Proof.
  apply (missing_query_stops_at_validation (example_env (Some true) gap_listing)
           no_query_params).
  reflexivity.
Defined.


(** X6. Nothing reaches for the browser before the approval is given: when
    any call of the invocation resolves or launches the browser, opens,
    navigates, queries or closes a page, the query was present, the output
    directory had been created and the approval had answered yes. *)
Theorem no_browser_call_without_approval (env : Env) (params : Params) :
  existsb browser_call (trace (snd (run env params))) = true ->
  truthy (query_of env params) = true
  /\ mkdir_ok env = true
  /\ approval env = Some true.
Proof.
  run_paths env params
    ltac:(first [ now (intros _; repeat split)
                | cbn; intros C; discriminate C ])
    ltac:(fun W => intros _; repeat split).
Qed.

Lemma no_browser_call_without_approval_witness :
  truthy (query_of timeout_env two_params) = true
  /\ mkdir_ok timeout_env = true
  /\ approval timeout_env = Some true.
Proof.
  apply (no_browser_call_without_approval timeout_env two_params).
  reflexivity.
Defined.


(** What a completed run wrote. *)
Lemma completed_run_trace (env : Env) (params : Params) :
  completed (snd (run env params)) ->
  exists searchResults evs,
    healthy env params searchResults
    /\ results (snd (run env params))
       = flat_map pushed (visited env params searchResults)
    /\ trace (snd (run env params))
       = opening env params ++ evs
           ++ closing env params (results (snd (run env params)))
    /\ forallb in_loop evs = true.
Proof.
  intros Hc. destruct (run_completed_healthy env params Hc) as (L & H).
  destruct (run_healthy_state env params L H) as (R & evs & T & W).
  now exists L, evs.
Qed.

Lemma flat_map_in_loop {B : Type} (f : Event -> list B) (evs : list Event) :
  (forall e, in_loop e = true -> f e = []) ->
  forallb in_loop evs = true -> flat_map f evs = [].
Proof.
  intros Hf. induction evs as [|e evs IH]; intros H; [reflexivity|].
  cbn [forallb] in H. apply andb_true_iff in H as [He H].
  cbn [flat_map]. now rewrite (Hf e He), (IH H).
Qed.

(** The file a run wrote, and its text. *)
Lemma written_data (env : Env) (params : Params) (file data : jsstring) :
  In (WriteFile file data, true) (trace (snd (run env params))) ->
  file = resultsPath_of env params
  /\ data = JSON_stringify
              (processed_of env params (results (snd (run env params)))).
Proof.
  intros Hin.
  assert (Hc : completed (snd (run env params))) by (now exists file, data).
  destruct (completed_run_trace env params Hc) as (L & evs & _ & _ & T & W).
  rewrite T in Hin. apply in_app_or in Hin as [Hin|Hin].
  - cbn in Hin. intuition discriminate.
  - apply in_app_or in Hin as [Hin|Hin].
    + rewrite forallb_forall in W. apply W in Hin. discriminate.
    + cbn in Hin. destruct Hin as [E|[E|[E|[]]]]; try discriminate.
      injection E as <- <-. now split.
Qed.

(** X8. One artifact, and a report of that artifact: when a file is written
    it is the only one, its path is [search-<timestamp>.json] in the results
    directory that was created, its text is the serialized [ProcessedResults]
    assembled from the final [results], and the tool result pushed is the
    report formatted from that same value and that same path. *)
Theorem report_is_of_the_artifact (env : Env) (params : Params)
  (file data : jsstring) :
  In (WriteFile file data, true) (trace (snd (run env params))) ->
  written (snd (run env params)) = [data]
  /\ file = path_join env (resultsDir_of env params)
              (lit "search-" ++ now env ++ lit ".json")
  /\ data = JSON_stringify
              (processed_of env params (results (snd (run env params))))
  /\ In (Mkdir (resultsDir_of env params), true) (trace (snd (run env params)))
  /\ In (PushToolResult
           (formatSearchResults
              (processed_of env params (results (snd (run env params)))) file),
         true) (trace (snd (run env params))).
Proof.
  intros Hin.
  assert (Hc : completed (snd (run env params))) by (now exists file, data).
  destruct (completed_run_trace env params Hc) as (L & evs & _ & _ & T & W).
  destruct (written_data env params file data Hin) as [E1 E2].
  assert (E : file = resultsPath_of env params
              /\ data = JSON_stringify
                          (processed_of env params
                             (results (snd (run env params))))) by now split.
  clear E1 E2.
  destruct E as [-> ->]. split; [|split; [reflexivity|split; [reflexivity|split]]].
  - unfold written. rewrite T, !flat_map_app.
    rewrite (flat_map_in_loop _ evs); [reflexivity| |exact W].
    intros [c ok] He. destruct c; try discriminate He; reflexivity.
  - rewrite T. apply in_or_app. left. now left.
  - rewrite T. apply in_or_app. right. apply in_or_app. right. right. now left.
Qed.

Lemma report_is_of_the_artifact_witness :
  written (snd (run gap_env two_params))
  = [JSON_stringify
       (processed_of gap_env two_params (results (snd (run gap_env two_params))))].
Proof.
  apply (report_is_of_the_artifact gap_env two_params
           (resultsPath_of gap_env two_params)).
  assert (H : healthy gap_env two_params gap_listing) by (repeat split).
  destruct (run_healthy_state gap_env two_params gap_listing H)
    as (_ & evs & T & _).
  rewrite T. apply in_or_app. right. apply in_or_app. right. now left.
Defined.

(* ================================================================== *)
(** ** Orchestrator: an account of the loop *)

Lemma visit_entry_account (c : Candidate) (i : nat) (s : State) :
  exists evs pg,
    visit_entry c i s
    = (if entry_ok c then Some tt else None,
       mkState (trace s ++ evs)
         (results s ++ if entry_ok c then pushed c else [])
         (browser s) pg)
    /\ forallb in_loop evs = true
    /\ count is_opened evs
       = (count is_closed evs + if leaks c then 1 else 0)%nat.
Proof.
  destruct c as [ok t sn [np gt bt ct ht cl]], s as [tr rs br pg].
  unfold visit_entry, pushed, leaks, both_present, extraction_ok, full_result,
    partial_result, listed_title, listed_url, listed_snippet,
    extract_content, try_catch, bind, attempt, await, newPage, emit,
    push_result, record, ret. simpl.
  destruct ok; simpl;
    [|do 2 eexists; split; [rewrite ?(app_nil_r rs); reflexivity|split; reflexivity]].
  destruct t as [t|]; simpl;
    [|do 2 eexists; split; [rewrite ?(app_nil_r rs); reflexivity|split; reflexivity]].
  destruct sn as [sn|]; simpl;
    [|do 2 eexists; split; [rewrite ?(app_nil_r rs); reflexivity|split; reflexivity]].
  destruct np; simpl;
    [|do 2 eexists; split; [rewrite <- ?app_assoc; reflexivity|split; reflexivity]].
  destruct gt; simpl;
    [|do 2 eexists; split; [rewrite <- ?app_assoc; reflexivity|split; reflexivity]].
  destruct bt as [bt|]; simpl;
    [|do 2 eexists; split; [rewrite <- ?app_assoc; reflexivity|split; reflexivity]].
  destruct ct as [ct|]; simpl;
    [|do 2 eexists; split; [rewrite <- ?app_assoc; reflexivity|split; reflexivity]].
  destruct ht as [ht|]; simpl;
    [|do 2 eexists; split; [rewrite <- ?app_assoc; reflexivity|split; reflexivity]].
  destruct cl; simpl;
    do 2 eexists; (split; [rewrite <- ?app_assoc; reflexivity|split; reflexivity]).
Qed.

Lemma loop_from_account (entries : list Candidate) (i : nat) (s : State) :
  exists evs rs pg k,
    loop_from i entries s
    = (if forallb entry_ok entries then Some tt else None,
       mkState (trace s ++ evs) rs (browser s) pg)
    /\ forallb in_loop evs = true
    /\ (k <= length entries)%nat
    /\ rs = results s ++ flat_map pushed (firstn k entries)
    /\ (forallb entry_ok entries = true ->
        k = length entries
        /\ count is_opened evs
           = (count is_closed evs + length (filter leaks entries))%nat).
Proof.
  revert i s; induction entries as [|c rest IH]; intros i s.
  - exists [], (results s), (pages s), 0%nat. simpl. rewrite !app_nil_r.
    destruct s; repeat split; reflexivity.
  - destruct (visit_entry_account c i s) as (evs1 & pg1 & E1 & W1 & C1).
    cbn [loop_from forallb]. unfold bind. rewrite E1.
    destruct (entry_ok c) eqn:Hc; cbn [andb].
    + match goal with |- context [loop_from (S i) rest ?s1] =>
        destruct (IH (S i) s1) as (evs2 & rs & pg & k & E2 & W2 & K2 & R2 & A2);
        rewrite E2 end.
      exists (evs1 ++ evs2), rs, pg, (S k). cbn [trace results browser] in *.
      rewrite <- app_assoc. split; [reflexivity|].
      split; [now rewrite forallb_app, W1, W2|].
      split; [cbn [length]; lia|].
      split; [rewrite R2; cbn [firstn flat_map]; now rewrite app_assoc|].
      intros H. destruct (A2 H) as [-> A]. split; [reflexivity|].
      rewrite !count_app, C1, A. cbn [filter].
      destruct (leaks c); cbn [length]; lia.
    + exists evs1. eexists. eexists. exists 0%nat.
      split; [reflexivity|]. split; [exact W1|].
      split; [lia|]. split; [cbn; now rewrite !app_nil_r | discriminate].
Qed.

Lemma search_loop_account (env : Env) (params : Params)
  (searchResults : list Candidate) (s : State) :
  exists evs rs pg k,
    for_range 0 (loop_bound (length searchResults) (maxResults_of env params))
      (visit searchResults) s
    = (if forallb entry_ok (visited env params searchResults)
       then Some tt else None,
       mkState (trace s ++ evs) rs (browser s) pg)
    /\ forallb in_loop evs = true
    /\ (k <= length (visited env params searchResults))%nat
    /\ rs = results s ++ flat_map pushed (firstn k (visited env params searchResults))
    /\ (forallb entry_ok (visited env params searchResults) = true ->
        k = length (visited env params searchResults)
        /\ count is_opened evs
           = (count is_closed evs
              + length (filter leaks (visited env params searchResults)))%nat).
Proof.
  rewrite for_range_visit by (pose proof (loop_bound_le (length searchResults)
                                            (maxResults_of env params)); lia).
  cbn [skipn]. apply loop_from_account.
Qed.

(** As [run_paths], with the account of the loop: [fin_loop] gets the
    facts about the calls, the number of entries gone through and the
    results. *)
Ltac run_paths_account env params fin fin_loop :=
  unfold run, webSearchTool, try_finally, try_catch, webSearchTool_try, search;
  destruct (handleError_ok env), (browser_close_ok env);
  (destruct (truthy (query_of env params));
   [|destruct (missing_param_reply env); run_step; fin]);
  (destruct (mkdir_ok env); [|run_step; fin]);
  (destruct (approval env) as [[|]|]; [|run_step; fin|run_step; fin]);
  (destruct (chromium_ok env); [|run_step; fin]);
  (destruct (launch_ok env); [|run_step; fin]);
  (destruct (search_page_ok env); [|run_step; fin]);
  (destruct (interception_ok env); [|run_step; fin]);
  (destruct (search_goto_ok env); [|run_step; fin]);
  (destruct (listing env) as [searchResults|]; [|run_step; fin]);
  run_step;
  match goal with
  | |- context [for_range 0 ?n ?f ?s] =>
      let evs := fresh "evs" in
      let rs := fresh "rs" in
      let pg := fresh "pg" in
      let k := fresh "k" in
      let E := fresh "E" in
      let W := fresh "W" in
      let K := fresh "K" in
      let R := fresh "R" in
      let A := fresh "A" in
      destruct (search_loop_account env params searchResults s)
        as (evs & rs & pg & k & E & W & K & R & A);
      rewrite E; cbn [results app] in R;
      (destruct (forallb entry_ok (visited env params searchResults));
       [|run_step; fin_loop k K R]);
      (destruct (writeFile_ok env); run_step; fin_loop k K R)
  end.

Lemma firstn_visited (env : Env) (params : Params) (l : list Candidate) (k : nat) :
  (k <= length (visited env params l))%nat ->
  firstn k (visited env params l) = firstn k l
  /\ (k <= loop_bound (length l) (maxResults_of env params))%nat.
Proof.
  unfold visited. intros H. rewrite length_firstn in H.
  rewrite firstn_firstn. split; [f_equal|]; lia.
Qed.

(** The results of any invocation, completed or not: what the first [k]
    entries of the listing pushed, for some [k] within the loop bound. *)
Lemma run_results (env : Env) (params : Params) :
  exists k,
    (k <= loop_bound (length (entries_of env)) (maxResults_of env params))%nat
    /\ results (snd (run env params))
       = flat_map pushed (firstn k (entries_of env)).
Proof.
  unfold entries_of.
  run_paths_account env params
    ltac:(exists 0%nat; split; [lia | reflexivity])
    ltac:(fun k K R =>
            exists k; destruct (firstn_visited env params _ k K) as [F B];
            split; [exact B | rewrite <- F; exact R]).
Qed.

Lemma forallb_filter_same {A : Type} (p : A -> bool) (l : list A) :
  forallb p (filter p l) = true.
Proof.
  induction l as [|x l IH]; simpl; [reflexivity|].
  destruct (p x) eqn:E; simpl; [now rewrite E|exact IH].
Qed.

Lemma pushed_shape (c : Candidate) (r : WebSearchResult) :
  In r (pushed c) -> detail_shape r = true.
Proof.
  unfold pushed. destruct (both_present c); [|contradiction].
  assert (F : detail_shape (full_result c) = true).
  { unfold detail_shape, full_result. cbn [content codeSnippets headings].
    now rewrite !forallb_filter_same. }
  destruct (extraction_ok (detail c)), (close_ok (detail c)); simpl;
    intuition (subst; first [exact F | reflexivity]).
Qed.




(** X9. Every entry of [results], in every invocation, has one of two
    shapes: title, url and snippet only, or these together with [content],
    [codeSnippets] and [headings], the two lists holding no empty string.
    Nothing in between is ever pushed. *)
Theorem results_full_or_partial (env : Env) (params : Params) :
  forallb detail_shape (results (snd (run env params))) = true.
Proof.
  destruct (run_results env params) as (k & _ & ->).
  apply forallb_forall. intros r Hr. apply in_flat_map in Hr as (c & _ & Hr).
  now apply pushed_shape in Hr.
Qed.







(** X13. With the default window nothing is kept: when [sliding_window_size]
    is not given, the window is 100 words, every window of the pages is at
    least 198 code units long, and the artifact of every completed search
    holds an empty [keyPhrases], whatever the pages contain. *)
Theorem default_window_gives_no_key_phrases (env : Env) (params : Params)
  (file data : jsstring) :
  truthy_opt (sliding_window_size_param params) = false ->
  In (WriteFile file data, true) (trace (snd (run env params))) ->
  parse_artifact data
  = Some (mkProcessed (query_of env params) (domain_of env params)
            (results (snd (run env params))) []
            (generateSearchSummary (results (snd (run env params))))
            (now env)).
Proof.
  intros Hw Hin. destruct (written_data env params file data Hin) as [_ ->].
  rewrite parse_artifact_stringify. unfold processed_of, assemble.
  unfold slidingWindowSize_of. rewrite Hw.
  rewrite wide_window_keeps_nothing by lia. reflexivity.
Qed.

Lemma default_window_gives_no_key_phrases_witness :
  parse_artifact
    (JSON_stringify
       (processed_of gap_env two_params (results (snd (run gap_env two_params)))))
  = Some (mkProcessed (lit "foo") None (results (snd (run gap_env two_params))) []
            (lit "A > B") (lit "2025-01-01T00:00:00.000Z")).
Proof.
  apply (default_window_gives_no_key_phrases gap_env two_params
           (resultsPath_of gap_env two_params)); [reflexivity|].
  assert (H : healthy gap_env two_params gap_listing) by (repeat split).
  destruct (run_healthy_state gap_env two_params gap_listing H)
    as (_ & evs & T & _).
  rewrite T. apply in_or_app. right. apply in_or_app. right. now left.
Defined.

(* ================================================================== *)
(** ** Report formatter: what the report shows *)

Lemma occurs_here (a x : jsstring) : occurs_in a (a ++ x).
Proof. exists [], x. reflexivity. Qed.

Lemma occurs_refl (a : jsstring) : occurs_in a a.
Proof. exists [], []. now rewrite app_nil_r. Qed.

Lemma occurs_skip (a x b : jsstring) : occurs_in a b -> occurs_in a (x ++ b).
Proof.
  intros (u & v & ->). exists (x ++ u), v. now rewrite <- app_assoc.
Qed.

Lemma occurs_left (a b x : jsstring) : occurs_in a b -> occurs_in a (b ++ x).
Proof.
  intros (u & v & ->). exists u, (v ++ x). now rewrite <- !app_assoc.
Qed.

Lemma occurs_trans (a b c : jsstring) :
  occurs_in a b -> occurs_in b c -> occurs_in a c.
Proof.
  intros (u & v & ->) (u' & v' & ->). exists (u' ++ u), (v ++ v').
  now rewrite <- !app_assoc.
Qed.

Lemma occurs_in_join (sep x : jsstring) (l : list jsstring) :
  In x l -> occurs_in x (join sep l).
Proof.
  induction l as [|y l IH]; [contradiction|]. intros [->|H].
  - destruct l; [apply occurs_refl | apply occurs_here].
  - destruct l as [|z l]; [contradiction|].
    change (join sep (y :: z :: l)) with (y ++ sep ++ join sep (z :: l)).
    now apply occurs_skip, occurs_skip, IH.
Qed.

Ltac find_part :=
  first [ apply occurs_here | apply occurs_refl | apply occurs_skip; find_part ].

Lemma format_result_shows (r : WebSearchResult) :
  occurs_in (title r) (format_result r)
  /\ occurs_in (url r) (format_result r)
  /\ occurs_in (snippet r) (format_result r)
  /\ forall h, In h (headings_of r) -> occurs_in h (format_result r).
Proof.
  unfold format_result. repeat split; try find_part.
  intros h Hh. unfold headings_of in Hh.
  destruct (headings r) as [[|h0 hs]|]; try contradiction.
  repeat apply occurs_skip. now apply occurs_in_join.
Qed.

(** X14. Nothing listed is left out of the report: the query, the path of
    the artifact, the summary, a non-empty domain, every key phrase and,
    for every result, its title, url, snippet and each of its headings
    occur in the text of the report. Code snippets are only counted. *)
Theorem report_shows_what_was_found (p : ProcessedResults) (storagePath : jsstring) :
  occurs_in (pr_query p) (formatSearchResults p storagePath)
  /\ occurs_in storagePath (formatSearchResults p storagePath)
  /\ occurs_in (pr_searchSummary p) (formatSearchResults p storagePath)
  /\ (forall d, pr_domain p = Some d -> truthy d = true ->
                occurs_in d (formatSearchResults p storagePath))
  /\ (forall k, In k (pr_keyPhrases p) ->
                occurs_in k (formatSearchResults p storagePath))
  /\ (forall r, In r (pr_results p) ->
                occurs_in (title r) (formatSearchResults p storagePath)
                /\ occurs_in (url r) (formatSearchResults p storagePath)
                /\ occurs_in (snippet r) (formatSearchResults p storagePath)
                /\ forall h, In h (headings_of r) ->
                             occurs_in h (formatSearchResults p storagePath)).
Proof.
  unfold formatSearchResults.
  split; [find_part|]. split; [find_part|]. split; [find_part|].
  split; [|split].
  - intros d Hd Ht. rewrite Hd, Ht. do 5 apply occurs_skip.
    apply occurs_left. find_part.
  - intros k Hk. do 18 apply occurs_skip. apply occurs_left.
    now apply occurs_in_join.
  - intros r Hr. destruct (format_result_shows r) as (T & U & S & Hh).
    match goal with
    | |- occurs_in _ ?report /\ _ =>
        assert (R : occurs_in (format_result r) report)
          by (repeat apply occurs_skip; apply occurs_in_join, in_map, Hr)
    end.
    repeat split; try (eapply occurs_trans; [eassumption | exact R]).
    intros h Hin. eapply occurs_trans; [apply Hh, Hin | exact R].
Qed.

Lemma pushed_at_most_two (c : Candidate) : (length (pushed c) <= 2)%nat.
Proof.
  unfold pushed. destruct (both_present c), (extraction_ok (detail c)),
    (close_ok (detail c)); simpl; lia.
Qed.

Lemma flat_map_pushed_length (entries : list Candidate) :
  (length (flat_map pushed entries) <= 2 * length entries)%nat.
Proof.
  induction entries as [|c l IH]; simpl; [lia|].
  rewrite length_app. pose proof (pushed_at_most_two c). lia.
Qed.

(** X15. Whatever fails, the results are bounded: in every invocation with
    a [maxResults] that is not negative, [results] never holds more than
    twice [maxResults] entries, each turn of the loop pushing at most two
    (the second one only when [contentPage.close()] rejects). *)
Theorem results_at_most_twice_maxResults (env : Env) (params : Params) (m : Z) :
  maxResults_of env params = Num m ->
  0 <= m ->
  Z.of_nat (length (results (snd (run env params)))) <= 2 * m.
Proof.
  intros Hm Hpos. destruct (run_results env params) as (k & Hk & ->).
  pose proof (flat_map_pushed_length (firstn k (entries_of env))) as L.
  rewrite length_firstn in L. rewrite Hm in Hk. simpl in Hk. lia.
Qed.

Lemma results_at_most_twice_maxResults_witness :
  Z.of_nat (length (results (snd (run close_fails_env
                                    (example_params (Some (lit "1")))))))
  <= 2 * 1.
Proof.
  apply (results_at_most_twice_maxResults close_fails_env
           (example_params (Some (lit "1"))) 1); [reflexivity | lia].
Defined.


Lemma report_shows_what_was_found_witness :
  occurs_in (lit "https://example.org/B")
    (formatSearchResults
       (processed_of timeout_env two_params
          (results (snd (run timeout_env two_params))))
       (resultsPath_of timeout_env two_params))
  /\ occurs_in (lit "C")
       (formatSearchResults
          (processed_of timeout_env two_params
             (results (snd (run timeout_env two_params))))
          (resultsPath_of timeout_env two_params)).
Proof.
  destruct (report_shows_what_was_found
              (processed_of timeout_env two_params
                 (results (snd (run timeout_env two_params))))
              (resultsPath_of timeout_env two_params))
    as (_ & _ & _ & _ & _ & R).
  destruct (R (mkResult (lit "B") (lit "https://example.org/B") (lit "about B")
                 (Some (lit "text B")) (Some []) (Some [lit "C"])))
    as (_ & U & _ & H).
  - right. left. reflexivity.
  - split; [exact U | apply H; left; reflexivity].
Defined.

Lemma in_loop_not_ask (e : Event) : in_loop e = true -> is_ask e = false.
Proof. destruct e as [c ok]; destruct c; cbn; intros; congruence. Qed.

Lemma in_loop_not_mkdir (e : Event) : in_loop e = true -> is_mkdir e = false.
Proof. destruct e as [c ok]; destruct c; cbn; intros; congruence. Qed.

(** X16. The directory is created once, for every invocation that has a
    query, and the approval is asked once, exactly when that creation went
    through: never without a query, never after a failed [mkdir], never a
    second time. *)
Theorem approval_asked_once_after_mkdir (env : Env) (params : Params) :
  count is_mkdir (trace (snd (run env params)))
  = (if truthy (query_of env params) then 1 else 0)%nat
  /\ count is_ask (trace (snd (run env params)))
     = (if truthy (query_of env params) && mkdir_ok env then 1 else 0)%nat.
Proof.
  run_paths env params
    ltac:(split; reflexivity)
    ltac:(fun W =>
            rewrite !count_app, (in_loop_count is_mkdir _ in_loop_not_mkdir W),
              (in_loop_count is_ask _ in_loop_not_ask W);
            split; reflexivity).
Qed.
